(** * catshadow client core: a shallow embedding of [client.go]

    The mixnet client of [client.go] is embedded as state-passing functions
    over a record [Client].  Everything the file imports from other
    packages (the double ratchet, the mixnet session, the spool codec, the
    PANDA engine, [sort], [time], [rand], the state writer) is collected in
    the class [Externals]; the theorems hold for every instance of it, and
    the concrete runs use the instance [Toy.world] defined below. *)

From Stdlib Require Import ZArith List String Lia Permutation Sorted.
From stdpp Require Import base option countable gmap strings list fin_maps.
Import ListNotations.

Local Open Scope string_scope.
Local Open Scope list_scope.

(** ** Bytes and byte order *)

Abbreviation byte := Byte.byte.

#[global] Instance byte_eq_dec : EqDecision byte := Byte.byte_eq_dec.

Definition byte_of_N (n : N) : byte :=
  match Byte.of_N n with Some b => b | None => Byte.x00 end.

#[global] Program Instance byte_countable : Countable byte :=
  inj_countable' Byte.to_N byte_of_N _.
Next Obligation. intros b. unfold byte_of_N. now rewrite Byte.of_to_N. Qed.

(** Go's conversion [byte(v)] of an unsigned integer keeps the low 8 bits. *)
Definition byte_of_Z (z : Z) : byte := byte_of_N (Z.to_N (z mod 256)).

Definition Z_of_byte (b : byte) : Z := Z.of_N (Byte.to_N b).

(** [uint32(n)]: conversion to an unsigned 32-bit integer wraps. *)
Definition uint32 (z : Z) : Z := (z mod 2 ^ 32)%Z.

(** [binary.BigEndian.PutUint32(b, v)], the four bytes written to [b[0..3]]. *)
Definition BigEndian_PutUint32 (v : Z) : list byte :=
  [ byte_of_Z (Z.shiftr v 24); byte_of_Z (Z.shiftr v 16);
    byte_of_Z (Z.shiftr v 8); byte_of_Z v ].

(** [binary.BigEndian.Uint32(b)]; [None] is the index-out-of-range panic of
    its bounds check [_ = b[3]]. *)
Definition BigEndian_Uint32 (b : list byte) : option Z :=
  match b with
  | b0 :: b1 :: b2 :: b3 :: _ =>
      Some (Z.lor (Z_of_byte b3)
             (Z.lor (Z.shiftl (Z_of_byte b2) 8)
               (Z.lor (Z.shiftl (Z_of_byte b1) 16)
                      (Z.shiftl (Z_of_byte b0) 24))))
  | _ => None
  end.

(** ** Go slices

    A slice is a window on a backing array: [sl_elems] are the [len]
    elements, [sl_spare] the rest of the array up to the capacity. *)

Record GoSlice := { sl_elems : list byte; sl_spare : list byte }.

Definition sl_cap (s : GoSlice) : nat :=
  length (sl_elems s) + length (sl_spare s).

Definition slice_of (l : list byte) : GoSlice :=
  {| sl_elems := l; sl_spare := [] |}.

(** The slice expression [s[lo:hi]]: Go requires [lo <= hi <= cap(s)] and
    panics otherwise ([None]). *)
Definition reslice (s : GoSlice) (lo hi : nat) : option GoSlice :=
  let arr := sl_elems s ++ sl_spare s in
  if (lo <=? hi)%nat && (hi <=? length arr)%nat
  then Some {| sl_elems := firstn (hi - lo) (skipn lo arr);
               sl_spare := skipn hi arr |}
  else None.

(** The builtin [copy(dst, src)]: copies [min(len(dst), len(src))] elements
    and leaves the rest of [dst] as it was. *)
Definition go_copy (dst src : list byte) : list byte :=
  firstn (length dst) src ++ skipn (length src) dst.

(** ** Send framing (doSendMessage, lines 530-532)

<<
    payload := [DoubleRatchetPayloadLength]byte{}
    binary.BigEndian.PutUint32(payload[:4], uint32(len(message)))
    copy(payload[4:], message)
>>  *)
Definition frame (DRPL : nat) (message : list byte) : list byte :=
  let payload := repeat Byte.x00 DRPL in
  let payload :=
    go_copy (firstn 4 payload)
            (BigEndian_PutUint32 (uint32 (Z.of_nat (length message))))
    ++ skipn 4 payload in
  firstn 4 payload ++ go_copy (skipn 4 payload) message.

(** ** Receive framing (decryptMessage, lines 747-748)

<<
    payloadLen := binary.BigEndian.Uint32(plaintext[:4])
    message.Plaintext = plaintext[4 : 4+payloadLen]
>>
    [4+payloadLen] is a uint32 sum and wraps; [None] is a run-time panic. *)
Definition unframe (plaintext : GoSlice) : option GoSlice :=
  match reslice plaintext 0 4 with
  | None => None
  | Some hd =>
      match BigEndian_Uint32 (sl_elems hd) with
      | None => None
      | Some payloadLen =>
          reslice plaintext 4 (Z.to_nat (uint32 (4 + payloadLen)))
      end
  end.

(** ** Data model *)

(** [MessageID] is [[MessageIDLen]byte], the transport id
    [[cConstants.MessageIDLength]byte]; both are kept as byte strings. *)
Abbreviation MessageID := (list byte).
Abbreviation TransportID := (list byte).

(** Go [error] values.  [ErrReplyTimeout] is the sentinel of the mixnet
    client that [processPANDAUpdate] compares against; every other error is
    known by its text. *)
Inductive error := ErrReplyTimeout | ErrOther (text : string).

#[global] Instance error_eq_dec : EqDecision error.
Proof. solve_decision. Defined.

Record SpoolWriteDescriptor := {
  swd_ID : list byte;
  swd_Receiver : string;
  swd_Provider : string;
}.

Record SpoolReadDescriptor := {
  srd_ID : list byte;
  srd_Receiver : string;
  srd_Provider : string;
  ReadOffset : Z;                      (* uint32 *)
}.

(** [IncrementOffset] of the spool client: [ReadOffset++] on a uint32. *)
Definition IncrementOffset (d : SpoolReadDescriptor) : SpoolReadDescriptor :=
  {| srd_ID := srd_ID d; srd_Receiver := srd_Receiver d;
     srd_Provider := srd_Provider d; ReadOffset := uint32 (ReadOffset d + 1) |}.

(** The fields of [common.SpoolResponse] that [handleReply] reads. *)
Record SpoolResponse := {
  sr_MessageID : Z;                    (* uint32 *)
  sr_IsOK : bool;
  sr_Message : list byte;
}.

Record contactExchange := {
  SignedKeyExchange : list byte;
  SpoolWriteDescriptor_of : option SpoolWriteDescriptor;   (* a pointer, may be nil *)
}.

(** [panda.PandaUpdate]; [None] is Go's [nil]. *)
Record PandaUpdate := {
  pu_ID : Z;
  pu_Err : option error;
  pu_Serialised : option (list byte);
  pu_Result : option (list byte);
}.

Record Message := {
  Plaintext : list byte;
  Ciphertext : list byte;
  Timestamp : Z;
  Outbound : bool;
  Sent : bool;
  Delivered : bool;
}.

Definition set_Ciphertext (x : list byte) (m : Message) : Message :=
  {| Plaintext := Plaintext m; Ciphertext := x; Timestamp := Timestamp m;
     Outbound := Outbound m; Sent := Sent m; Delivered := Delivered m |}.
Definition set_Sent (x : bool) (m : Message) : Message :=
  {| Plaintext := Plaintext m; Ciphertext := Ciphertext m; Timestamp := Timestamp m;
     Outbound := Outbound m; Sent := x; Delivered := Delivered m |}.
Definition set_Delivered (x : bool) (m : Message) : Message :=
  {| Plaintext := Plaintext m; Ciphertext := Ciphertext m; Timestamp := Timestamp m;
     Outbound := Outbound m; Sent := Sent m; Delivered := x |}.

(** [msgWithID]: a message of a conversation together with its key. *)
Record msgWithID := { mwid_msg : Message; mID : MessageID }.

(** [Messages.Less]: [d[i].Timestamp.Before(d[j].Timestamp)]. *)
Definition Less (a b : msgWithID) : bool :=
  (Timestamp (mwid_msg a) <? Timestamp (mwid_msg b))%Z.

Record SentMessageDescriptor := {
  smd_Nickname : string;
  smd_MessageID : MessageID;
}.

(** The three events of the mixnet client that carry a transport id.  The
    field [MessageID] is a pointer to the id array; the record holds the
    array it points to. *)
Record MessageReplyEvent := {
  mre_MessageID : TransportID;
  mre_Payload : list byte;
}.

Record MessageSentEvent_in := { mse_MessageID : TransportID }.

(** Events sent to [eventCh]. *)
Inductive Event :=
| KeyExchangeCompletedEvent (nickname : string) (err : option error)
| MessageSentEvent (nickname : string) (mid : MessageID)
| MessageDeliveredEvent (nickname : string) (mid : MessageID)
| MessageReceivedEvent (nickname : string) (message : list byte) (timestamp : Z).

Inductive level := DEBUG | INFO | WARNING | ERROR.

(** What a run does to the outside, in order. *)
Inductive Effect :=
| Emit (e : Event)                                   (* c.eventCh.In() <- e *)
| Fatal (e : error)                                  (* c.fatalErrCh <- e *)
| Saved                                              (* writeState succeeded *)
| Submit (receiver provider : string) (cmd : list byte)
         (r : error + TransportID)                   (* SendUnreliableMessage *)
| SpawnKx (contact_id : Z)                           (* go kx.Run() *)
| Log (l : level) (format : string).

(** Keys of the [sync.Map] [sendMap] are interface values: [inl a] is the
    array [a] itself, [inr a] a pointer to an array.  Keys of different
    dynamic types are never equal. *)
Definition ArrayKey (a : TransportID) : TransportID + TransportID := inl a.
Definition PointerKey (a : TransportID) : TransportID + TransportID := inr a.

(** ** What the file imports *)

Class Externals := {
  (* the double ratchet *)
  Ratchet : Type;
  ratchet_Encrypt : Ratchet -> list byte -> Ratchet * list byte;
  ratchet_Decrypt : Ratchet -> list byte -> Ratchet * (error + GoSlice);
  ratchet_ProcessKeyExchange : Ratchet -> list byte -> Ratchet * option error;
  MaxMissingMessages : Z;
  DoubleRatchetPayloadLength : nat;
  (* payload[:4] on the array compiles only if the array has 4 bytes *)
  DoubleRatchetPayloadLength_ge_4 : 4 <= DoubleRatchetPayloadLength;
  (* the spool codec *)
  AppendToSpool : list byte -> list byte -> error + list byte;
  SpoolResponseFromBytes : list byte -> error + SpoolResponse;
  (* contact exchange and PANDA *)
  parseContactExchangeBytes : list byte -> error + contactExchange;
  ErrReplyTimeout_text : string;
  (* the world, asked for the [k]-th time *)
  time_Now : nat -> Z;
  rand_Read : nat -> list byte * option error;
  session_SendUnreliableMessage :
    nat -> string -> string -> list byte -> error + TransportID;
  session_GetPandaConfig : nat -> bool;
  panda_UnmarshalKeyExchange : nat -> option (list byte) -> bool;
  cbor_Marshal : nat -> bool;
  stateWorker_writeState : nat -> bool;
  (* the order in which a [range] over a map visits it *)
  range_order : nat -> forall A : Type, list A -> list A;
  range_order_perm : forall k A (l : list A), Permutation (range_order k A l) l;
  (* the capacity of a slice grown from an empty literal by [n] appends *)
  append_cap : nat -> nat;
  append_cap_0 : append_cap 0 = 0;
  append_cap_ge : forall n, n <= append_cap n;
  (* sort.Sort on [Messages] *)
  sort_Sort : list msgWithID -> list msgWithID;
  sort_Sort_perm : forall l, Permutation (sort_Sort l) l;
  sort_Sort_sorted : forall l,
    StronglySorted (fun a b => Less b a = false) (sort_Sort l);
}.

Definition Error_text `{Externals} (e : error) : string :=
  match e with
  | ErrReplyTimeout => ErrReplyTimeout_text
  | ErrOther s => s
  end.

(** [fmt.Errorf(prefix + "%s", err)]. *)
Definition Errorf `{Externals} (prefix : string) (e : error) : error :=
  ErrOther (prefix ++ Error_text e).

(** ** Outcomes of a run

    A call either returns ([Done], with the new state), panics, or blocks
    for ever on a mutex that the calling goroutine already holds ([Hang]). *)

Inductive result (S A : Type) : Type :=
| Done (a : A) (s : S)
| Panic (why : string)
| Hang.
Arguments Done {S A} a s.
Arguments Panic {S A} why.
Arguments Hang {S A}.

Definition M (S A : Type) : Type := S -> result S A.

Definition ret {S A} (a : A) : M S A := fun s => Done a s.

Definition bind {S A B} (m : M S A) (k : A -> M S B) : M S B :=
  fun s =>
    match m s with
    | Done a s' => k a s'
    | Panic w => Panic w
    | Hang => Hang
    end.

Definition get {S} : M S S := fun s => Done s s.
Definition modify {S} (f : S -> S) : M S unit := fun s => Done tt (f s).
Definition panic {S A} (why : string) : M S A := fun _ => Panic why.

Declare Scope go_scope.
Delimit Scope go_scope with go.
Notation "x <- m ;; k" := (bind m (fun x => k))
  (at level 100, m at next level, k at level 200, right associativity) : go_scope.
Notation "m ;; k" := (bind m (fun _ => k))
  (at level 100, k at level 200, right associativity) : go_scope.
Local Open Scope go_scope.

(** ** Observations on a run *)

(** Partial and total correctness of a step: [wp m Q s] holds when [m],
    if it returns from [s], returns a value and a state in [Q]; [twp m Q s]
    also says that it returns. *)
Definition wp {S A} (m : M S A) (Q : A -> S -> Prop) (s : S) : Prop :=
  match m s with Done a s' => Q a s' | _ => True end.

Definition twp {S A} (m : M S A) (Q : A -> S -> Prop) (s : S) : Prop :=
  match m s with Done a s' => Q a s' | _ => False end.

(** The events of a trace, in order. *)
Definition emitted (t : list Effect) : list Event :=
  omap (fun e => match e with Emit ev => Some ev | _ => None end) t.

(** The commands handed to [SendUnreliableMessage], in order. *)
Definition submitted (t : list Effect) : list (list byte) :=
  omap (fun e => match e with Submit _ _ cmd _ => Some cmd | _ => None end) t.

(** The number of submissions that the session accepted. *)
Definition accepted (t : list Effect) : nat :=
  length (List.filter (fun e => match e with
                                | Submit _ _ _ (inr _) => true
                                | _ => false end) t).

(** The numbers of [MessageReceived] and [MessageDelivered] events and of
    completed saves in a trace. *)
Definition received (t : list Effect) : nat :=
  length (List.filter (fun ev => match ev with
                                 | MessageReceivedEvent _ _ _ => true
                                 | _ => false end) (emitted t)).

Definition delivered (t : list Effect) : nat :=
  length (List.filter (fun ev => match ev with
                                 | MessageDeliveredEvent _ _ => true
                                 | _ => false end) (emitted t)).

Definition saves (t : list Effect) : nat :=
  length (List.filter (fun e => match e with Saved => true | _ => false end) t).


(** The order on conversation ids: bytes compared from the left. *)
Fixpoint mid_lt (a b : MessageID) : bool :=
  match a, b with
  | [], [] => false
  | [], _ :: _ => true
  | _ :: _, [] => false
  | x :: a', y :: b' =>
      (Z_of_byte x <? Z_of_byte y)%Z
      || ((Z_of_byte x =? Z_of_byte y)%Z && mid_lt a' b')
  end.

(** ** The client *)

Section Model.
Context `{Externals}.

(** The fields of [Contact] that [client.go] touches.  The per-contact
    [ratchetMutex] is taken and released around every single ratchet call
    and never held across another acquisition; it is left out. *)
Record Contact := {
  id : Z;                                          (* uint64 *)
  Nickname : string;
  IsPending : bool;
  UnACKed : Z;
  ratchet : Ratchet;
  spoolWriteDescriptor : option SpoolWriteDescriptor;
  pandaKeyExchange : option (list byte);
  pandaResult : string;
  pandaShutdownChan : option nat;
}.

Definition set_IsPending (x : bool) (k : Contact) : Contact :=
  {| id := id k; Nickname := Nickname k; IsPending := x; UnACKed := UnACKed k;
     ratchet := ratchet k; spoolWriteDescriptor := spoolWriteDescriptor k;
     pandaKeyExchange := pandaKeyExchange k; pandaResult := pandaResult k;
     pandaShutdownChan := pandaShutdownChan k |}.
Definition set_UnACKed (x : Z) (k : Contact) : Contact :=
  {| id := id k; Nickname := Nickname k; IsPending := IsPending k; UnACKed := x;
     ratchet := ratchet k; spoolWriteDescriptor := spoolWriteDescriptor k;
     pandaKeyExchange := pandaKeyExchange k; pandaResult := pandaResult k;
     pandaShutdownChan := pandaShutdownChan k |}.
Definition set_ratchet (x : Ratchet) (k : Contact) : Contact :=
  {| id := id k; Nickname := Nickname k; IsPending := IsPending k;
     UnACKed := UnACKed k; ratchet := x;
     spoolWriteDescriptor := spoolWriteDescriptor k;
     pandaKeyExchange := pandaKeyExchange k; pandaResult := pandaResult k;
     pandaShutdownChan := pandaShutdownChan k |}.
Definition set_spoolWriteDescriptor (x : option SpoolWriteDescriptor)
    (k : Contact) : Contact :=
  {| id := id k; Nickname := Nickname k; IsPending := IsPending k;
     UnACKed := UnACKed k; ratchet := ratchet k; spoolWriteDescriptor := x;
     pandaKeyExchange := pandaKeyExchange k; pandaResult := pandaResult k;
     pandaShutdownChan := pandaShutdownChan k |}.
Definition set_pandaKeyExchange (x : option (list byte)) (k : Contact) : Contact :=
  {| id := id k; Nickname := Nickname k; IsPending := IsPending k;
     UnACKed := UnACKed k; ratchet := ratchet k;
     spoolWriteDescriptor := spoolWriteDescriptor k;
     pandaKeyExchange := x; pandaResult := pandaResult k;
     pandaShutdownChan := pandaShutdownChan k |}.
Definition set_pandaResult (x : string) (k : Contact) : Contact :=
  {| id := id k; Nickname := Nickname k; IsPending := IsPending k;
     UnACKed := UnACKed k; ratchet := ratchet k;
     spoolWriteDescriptor := spoolWriteDescriptor k;
     pandaKeyExchange := pandaKeyExchange k; pandaResult := x;
     pandaShutdownChan := pandaShutdownChan k |}.
Definition set_pandaShutdownChan (x : option nat) (k : Contact) : Contact :=
  {| id := id k; Nickname := Nickname k; IsPending := IsPending k;
     UnACKed := UnACKed k; ratchet := ratchet k;
     spoolWriteDescriptor := spoolWriteDescriptor k;
     pandaKeyExchange := pandaKeyExchange k; pandaResult := pandaResult k;
     pandaShutdownChan := x |}.

(** What [marshal] serialises: the fields of [State] that the client
    fills from its own state.  [sf_Contacts] is the slice of the contacts
    that the [range] over [c.contacts] appended, kept by the key each was
    found under (the order of the slice is not specified); a [nil] pointer
    is [None].  Pointers are followed when [cbor.Marshal] runs. *)
Record Statefile := {
  sf_SpoolReadDescriptor : option SpoolReadDescriptor;
  sf_Contacts : gmap Z (option Contact);
  sf_User : string;
  sf_Conversations : gmap string (gmap MessageID Message);
}.

(** [Client].  The two contact maps hold pointers to the same [Contact]
    objects; [heap] is the store those pointers point into.  A pointer
    that is not in [heap] behaves as [nil].  [conversationsMutex] is [true]
    while the mutex is held.  [statefile] is what was last handed to the
    state writer.  [trace] and [tick] record what the client did to the
    outside and how often it asked the outside for something. *)
Record Client := {
  user : string;
  heap : gmap nat Contact;
  contacts : gmap Z nat;
  contactNicknames : gmap string nat;
  spoolReadDescriptor : option SpoolReadDescriptor;
  conversations : gmap string (gmap MessageID Message);
  conversationsMutex : bool;
  sendMap : gmap (TransportID + TransportID) SentMessageDescriptor;
  statefile : option Statefile;
  trace : list Effect;
  tick : nat;
}.

Definition set_heap (x : gmap nat Contact) (c : Client) : Client :=
  {| user := user c; heap := x; contacts := contacts c;
     contactNicknames := contactNicknames c;
     spoolReadDescriptor := spoolReadDescriptor c;
     conversations := conversations c;
     conversationsMutex := conversationsMutex c; sendMap := sendMap c;
     statefile := statefile c; trace := trace c; tick := tick c |}.
Definition set_spoolReadDescriptor (x : option SpoolReadDescriptor)
    (c : Client) : Client :=
  {| user := user c; heap := heap c; contacts := contacts c;
     contactNicknames := contactNicknames c; spoolReadDescriptor := x;
     conversations := conversations c;
     conversationsMutex := conversationsMutex c; sendMap := sendMap c;
     statefile := statefile c; trace := trace c; tick := tick c |}.
Definition set_conversations (x : gmap string (gmap MessageID Message))
    (c : Client) : Client :=
  {| user := user c; heap := heap c; contacts := contacts c;
     contactNicknames := contactNicknames c;
     spoolReadDescriptor := spoolReadDescriptor c; conversations := x;
     conversationsMutex := conversationsMutex c; sendMap := sendMap c;
     statefile := statefile c; trace := trace c; tick := tick c |}.
Definition set_conversationsMutex (x : bool) (c : Client) : Client :=
  {| user := user c; heap := heap c; contacts := contacts c;
     contactNicknames := contactNicknames c;
     spoolReadDescriptor := spoolReadDescriptor c;
     conversations := conversations c; conversationsMutex := x;
     sendMap := sendMap c; statefile := statefile c; trace := trace c;
     tick := tick c |}.
Definition set_sendMap
    (x : gmap (TransportID + TransportID) SentMessageDescriptor)
    (c : Client) : Client :=
  {| user := user c; heap := heap c; contacts := contacts c;
     contactNicknames := contactNicknames c;
     spoolReadDescriptor := spoolReadDescriptor c;
     conversations := conversations c;
     conversationsMutex := conversationsMutex c; sendMap := x;
     statefile := statefile c; trace := trace c; tick := tick c |}.
Definition set_statefile (x : option Statefile) (c : Client) : Client :=
  {| user := user c; heap := heap c; contacts := contacts c;
     contactNicknames := contactNicknames c;
     spoolReadDescriptor := spoolReadDescriptor c;
     conversations := conversations c;
     conversationsMutex := conversationsMutex c; sendMap := sendMap c;
     statefile := x; trace := trace c; tick := tick c |}.
Definition set_trace (x : list Effect) (c : Client) : Client :=
  {| user := user c; heap := heap c; contacts := contacts c;
     contactNicknames := contactNicknames c;
     spoolReadDescriptor := spoolReadDescriptor c;
     conversations := conversations c;
     conversationsMutex := conversationsMutex c; sendMap := sendMap c;
     statefile := statefile c; trace := x; tick := tick c |}.
Definition set_tick (x : nat) (c : Client) : Client :=
  {| user := user c; heap := heap c; contacts := contacts c;
     contactNicknames := contactNicknames c;
     spoolReadDescriptor := spoolReadDescriptor c;
     conversations := conversations c;
     conversationsMutex := conversationsMutex c; sendMap := sendMap c;
     statefile := statefile c; trace := trace c; tick := x |}.

(** *** Primitive steps *)

Definition effect (e : Effect) : M Client unit :=
  modify (fun c => set_trace (trace c ++ [e]) c).

Definition log (l : level) (format : string) : M Client unit :=
  effect (Log l format).

Definition emit (e : Event) : M Client unit := effect (Emit e).

(** The number of the next question to the outside. *)
Definition next_tick : M Client nat :=
  fun c => Done (tick c) (set_tick (S (tick c)) c).

(** [c.conversationsMutex.Lock()]: a [sync.Mutex] is not reentrant. *)
Definition Lock : M Client unit :=
  fun c => if conversationsMutex c then Hang
           else Done tt (set_conversationsMutex true c).

Definition Unlock : M Client unit :=
  fun c => if conversationsMutex c
           then Done tt (set_conversationsMutex false c)
           else Panic "sync: unlock of unlocked mutex".

(** Reading and writing a contact through its pointer. *)
Definition deref (p : nat) : M Client Contact :=
  fun c => match heap c !! p with
           | Some k => Done k c
           | None => Panic "invalid memory address or nil pointer dereference"
           end.

Definition with_contact (p : nat) (f : Contact -> Contact) : M Client unit :=
  k <- deref p ;;
  modify (fun c => set_heap (<[p := f k]> (heap c)) c).

(** [c.conversations[nickname][mid] = &m], creating the inner map first
    when the nickname has none. *)
Definition insert_message (nickname : string) (mid : MessageID) (m : Message)
    : M Client unit :=
  modify (fun c =>
    let convo := match conversations c !! nickname with
                 | Some convo => convo
                 | None => ∅
                 end in
    set_conversations (<[nickname := <[mid := m]> convo]> (conversations c)) c).

(** A write through the [*Message] stored at [nickname], [mid]. *)
Definition update_message (nickname : string) (mid : MessageID)
    (f : Message -> Message) : M Client unit :=
  modify (fun c =>
    set_conversations (alter (alter f mid) nickname (conversations c)) c).

(** [c.sendMap.Store] of a descriptor under the id that [mesgID] points to:
    the key is the array itself. *)
Definition sendMap_Store (mesgID : TransportID) (d : SentMessageDescriptor)
    : M Client unit :=
  modify (fun c => set_sendMap (<[ArrayKey mesgID := d]> (sendMap c)) c).

(** *** save and marshal (lines 343-371) *)

Definition GetAllConversations
    : M Client (gmap string (gmap MessageID Message)) :=
  Lock ;;
  c <- get ;;
  Unlock ;;
  ret (conversations c).

(** The [State] that [marshal] builds from the client as it is. *)
Definition snapshot (c : Client) : Statefile :=
  {| sf_SpoolReadDescriptor := spoolReadDescriptor c;
     sf_Contacts := (fun p => heap c !! p) <$> contacts c;
     sf_User := user c;
     sf_Conversations := conversations c |}.

(** The serialised state, or [None] when [cbor.Marshal] returned an
    error. *)
Definition marshal : M Client (option Statefile) :=
  _ <- GetAllConversations ;;
  Lock ;;
  k <- next_tick ;;
  c <- get ;;
  Unlock ;;
  ret (if cbor_Marshal k then Some (snapshot c) else None).

Definition save : M Client unit :=
  log DEBUG "Saving statefile." ;;
  serialized <- marshal ;;
  match serialized with
  | Some s =>
      k <- next_tick ;;
      if stateWorker_writeState k then
        modify (set_statefile (Some s)) ;;
        effect Saved
      else panic "writeState"
  | None => panic "marshal"
  end.

(** *** doRetransmit (lines 556-596) *)

(** The filter of the [range] loop: [msg.Outbound && !msg.Delivered && msg.Sent]. *)
Definition undelivered (msg : Message) : bool :=
  Outbound msg && negb (Delivered msg) && Sent msg.

(** [rTx] after the loop, for the visiting order [visit] of the map. *)
Definition collect (visit : list (MessageID * Message)) : list msgWithID :=
  map (fun '(mID, msg) => {| mwid_msg := msg; mID := mID |})
      (List.filter (fun '(_, msg) => undelivered msg) visit).

(** [rTx] when the [k]-th question to the outside is the order of the
    [range] over [convMap]. *)
Definition retransmit_candidates (k : nat) (convMap : gmap MessageID Message)
    : list msgWithID :=
  collect (range_order k _ (map_to_list convMap)).

Definition someLimit : nat := 4.

(** [rTx[:hi]] for a slice of pointers with [length l] elements and capacity
    [cap]: a panic unless [hi <= cap]; the array cells past the length were
    never written and hold [nil]. *)
Definition slice_to {A} (cap : nat) (l : list A) (hi : nat)
    : option (list (option A)) :=
  if (hi <=? cap)%nat
  then Some (firstn hi (map Some l ++ repeat None (cap - length l)))
  else None.

(** The body of [for _, msg := range rTx[:someLimit]]. *)
Fixpoint retransmit_loop (contact : Contact) (slots : list (option msgWithID))
    : M Client (option error) :=
  match slots with
  | [] => ret None
  | msg :: rest =>
      match spoolWriteDescriptor contact, msg with
      | Some d, Some msg =>
          match AppendToSpool (swd_ID d) (Ciphertext (mwid_msg msg)) with
          | inl err =>
              log ERROR "failed to compute spool append command: %s" ;;
              ret (Some err)
          | inr appendCmd =>
              k <- next_tick ;;
              let r := session_SendUnreliableMessage
                         k (swd_Receiver d) (swd_Provider d) appendCmd in
              effect (Submit (swd_Receiver d) (swd_Provider d) appendCmd r) ;;
              match r with
              | inl err =>
                  log ERROR "failed to send ciphertext to remote spool: %s" ;;
                  ret (Some err)
              | inr mesgID =>
                  log DEBUG "Message enqueued for retransmission to %s, message-ID: %x" ;;
                  sendMap_Store mesgID
                    {| smd_Nickname := Nickname contact; smd_MessageID := mID msg |} ;;
                  retransmit_loop contact rest
              end
          end
      | _, _ => panic "invalid memory address or nil pointer dereference"
      end
  end.

Definition doRetransmit (p : nat) : M Client (option error) :=
  contact <- deref p ;;
  c <- get ;;
  match conversations c !! Nickname contact with
  | None =>
      ret (Some (ErrOther "Retransmit failure: No conversations found for %s"))
  | Some convMap =>
      k <- next_tick ;;
      let rTx := retransmit_candidates k convMap in
      let cap := append_cap (length rTx) in
      let rTx := sort_Sort rTx in
      match slice_to cap rTx someLimit with
      | None => panic "slice bounds out of range"
      | Some slots => retransmit_loop contact slots
      end
  end.

(** *** doSendMessage (lines 495-554) and SendMessage (lines 479-493) *)

Definition doSendMessage (convoMesgID : MessageID) (nickname : string)
    (message : list byte) : M Client unit :=
  k <- next_tick ;;
  let outMessage :=
    {| Plaintext := message; Ciphertext := []; Timestamp := time_Now k;
       Outbound := true; Sent := false; Delivered := false |} in
  Lock ;;
  insert_message nickname convoMesgID outMessage ;;
  Unlock ;;
  c <- get ;;
  match contactNicknames c !! nickname with
  | None => log ERROR "contact %s not found"
  | Some p =>
      contact <- deref p ;;
      if IsPending contact then
        log ERROR "cannot send message, contact %s is pending a key exchange"
      else
        (if decide (UnACKed contact = MaxMissingMessages - 1)%Z then
           log ERROR "cannot send message, contact %s's spool has not received %d messages" ;;
           _ <- doRetransmit p ;;
           ret tt
         else ret tt) ;;
        let payload := frame DoubleRatchetPayloadLength message in
        contact <- deref p ;;
        let '(r, ciphertext) := ratchet_Encrypt (ratchet contact) payload in
        with_contact p (set_ratchet r) ;;
        update_message nickname convoMesgID (set_Ciphertext ciphertext) ;;
        match spoolWriteDescriptor contact with
        | None => panic "invalid memory address or nil pointer dereference"
        | Some d =>
            match AppendToSpool (swd_ID d) ciphertext with
            | inl err => log ERROR "failed to compute spool append command: %s"
            | inr appendCmd =>
                k <- next_tick ;;
                let r := session_SendUnreliableMessage
                           k (swd_Receiver d) (swd_Provider d) appendCmd in
                effect (Submit (swd_Receiver d) (swd_Provider d) appendCmd r) ;;
                match r with
                | inl err => log ERROR "failed to send ciphertext to remote spool: %s"
                | inr mesgID =>
                    with_contact p (fun k => set_UnACKed (UnACKed k + 1) k) ;;
                    save ;;
                    log DEBUG "Message enqueued for sending to %s, message-ID: %x" ;;
                    sendMap_Store mesgID
                      {| smd_Nickname := nickname; smd_MessageID := convoMesgID |}
                end
            end
        end
  end.

(** [SendMessage] draws the conversation id, hands [opSendMessage] to the
    worker, which runs [doSendMessage], and returns the id. *)
Definition SendMessage (nickname : string) (message : list byte)
    : M Client MessageID :=
  k <- next_tick ;;
  let '(convoMesgID, err) := rand_Read k in
  match err with Some e => effect (Fatal e) | None => ret tt end ;;
  doSendMessage convoMesgID nickname message ;;
  ret convoMesgID.

(** *** handleSent (lines 621-649) *)

Definition handleSent (sentEvent : MessageSentEvent_in) : M Client unit :=
  c <- get ;;
  match sendMap c !! ArrayKey (mse_MessageID sentEvent) with
  | None => ret tt
  | Some tp =>
      if decide (smd_Nickname tp = user c) then
        log DEBUG "readInbox command %x sent"
      else
        Lock ;;
        match conversations c !! smd_Nickname tp with
        | Some convo =>
            match convo !! smd_MessageID tp with
            | Some _ =>
                update_message (smd_Nickname tp) (smd_MessageID tp) (set_Sent true) ;;
                save
            | None => ret tt
            end
        | None => ret tt
        end ;;
        Unlock ;;
        log DEBUG "MessageSentEvent for %x" ;;
        emit (MessageSentEvent (smd_Nickname tp) (smd_MessageID tp))
  end.

(** *** decryptMessage (lines 729-778) *)

(** The [for _, contact := range c.contacts] loop over the pointers in
    visiting order; the result is the nickname and the message of the first
    contact whose ratchet decrypts, if any. *)
Fixpoint trial_decrypt (visit : list nat) (ciphertext : list byte)
    : M Client (option (string * Message)) :=
  match visit with
  | [] => ret None
  | p :: rest =>
      contact <- deref p ;;
      if IsPending contact then trial_decrypt rest ciphertext
      else
        let '(r, res) := ratchet_Decrypt (ratchet contact) ciphertext in
        with_contact p (set_ratchet r) ;;
        match res with
        | inl err =>
            log DEBUG "Decryption err: %s" ;;
            trial_decrypt rest ciphertext
        | inr plaintext =>
            match unframe plaintext with
            | None => panic "slice bounds out of range"
            | Some body =>
                k <- next_tick ;;
                ret (Some (Nickname contact,
                           {| Plaintext := sl_elems body; Ciphertext := [];
                              Timestamp := time_Now k; Outbound := false;
                              Sent := false; Delivered := false |}))
            end
        end
  end.

Definition decryptMessage (messageID : TransportID) (ciphertext : list byte)
    : M Client bool :=
  c <- get ;;
  k <- next_tick ;;
  found <- trial_decrypt (range_order k _ (map snd (map_to_list (contacts c))))
                         ciphertext ;;
  match found with
  | Some (nickname, message) =>
      k <- next_tick ;;
      let '(convoMesgID, err) := rand_Read k in
      match err with Some e => effect (Fatal e) | None => ret tt end ;;
      log DEBUG "Message decrypted for %s: %x" ;;
      Lock ;;
      insert_message nickname convoMesgID message ;;
      emit (MessageReceivedEvent nickname (Plaintext message) (Timestamp message)) ;;
      Unlock ;;
      ret true
  | None =>
      log DEBUG "trial ratchet decryption failure for message ID %x reported ratchet error: %s" ;;
      ret false
  end.

(** *** handleReply (lines 651-715) *)

(** [c.sendMap.Delete(key)] for an interface key. *)
Definition sendMap_Delete (key : TransportID + TransportID) : M Client unit :=
  modify (fun c => set_sendMap (delete key (sendMap c)) c).

(** The [case *SentMessageDescriptor] arm.  Only descriptors are ever
    stored in [sendMap], so the [default] arm of the type switch is dead. *)
Definition handleReply_descriptor (replyEvent : MessageReplyEvent)
    (tp : SentMessageDescriptor) : M Client unit :=
  match SpoolResponseFromBytes (mre_Payload replyEvent) with
  | inl err => effect (Fatal (Errorf "BUG, invalid spool response, error is " err))
  | inr spoolResponse =>
      if negb (sr_IsOK spoolResponse) then
        log ERROR "Spool response ID %x status error: %s for SpoolID %x"
      else
        c <- get ;;
        if decide (smd_Nickname tp <> user c) then
          (* a delivery acknowledgement for a spool write *)
          Lock ;;
          match conversations c !! smd_Nickname tp with
          | Some convo =>
              match convo !! smd_MessageID tp with
              | Some _ =>
                  match contactNicknames c !! smd_Nickname tp with
                  | Some p =>
                      contact <- deref p ;;
                      if (0 <? UnACKed contact)%Z then
                        with_contact p (fun k => set_UnACKed (UnACKed k - 1) k)
                      else panic "bug"
                  | None => panic "bug"
                  end ;;
                  update_message (smd_Nickname tp) (smd_MessageID tp)
                    (fun m => set_Ciphertext [] (set_Delivered true m)) ;;
                  save
              | None => ret tt
              end
          | None => ret tt
          end ;;
          Unlock ;;
          log DEBUG "MessageDeliveredEvent for %s MessageID %x" ;;
          emit (MessageDeliveredEvent (smd_Nickname tp) (smd_MessageID tp))
        else
          (* a response to a read of the tip of our spool; [off], read from
             the first four bytes of the id array, only goes to the log *)
          log DEBUG "Got a valid spool response: %d, status: %s, len %d in response to: %d" ;;
          log DEBUG "Calling decryptMessage(%x, xx)" ;;
          match spoolReadDescriptor c with
          | None => panic "invalid memory address or nil pointer dereference"
          | Some d =>
              if (sr_MessageID spoolResponse <? ReadOffset d)%Z then
                ret tt                                            (* dup *)
              else if (sr_MessageID spoolResponse =? ReadOffset d)%Z then
                modify (set_spoolReadDescriptor (Some (IncrementOffset d))) ;;
                decrypted <- decryptMessage (mre_MessageID replyEvent)
                                            (sr_Message spoolResponse) ;;
                if decrypted : bool then ret tt
                else panic "failure to decrypt tip of spool"
              else panic "received spool response for MessageID not requested yet"
          end
  end.

(** The deferred [c.sendMap.Delete(replyEvent.MessageID)] is given the
    pointer field of the event, not the array it points to. *)
Definition handleReply (replyEvent : MessageReplyEvent) : M Client unit :=
  c <- get ;;
  match sendMap c !! ArrayKey (mre_MessageID replyEvent) with
  | None => ret tt
  | Some ev =>
      handleReply_descriptor replyEvent ev ;;
      sendMap_Delete (PointerKey (mre_MessageID replyEvent))
  end.

(** *** processPANDAUpdate (lines 394-476) *)

(** [bytes.Equal(a, b)]: a nil slice equals an empty one. *)
Definition bytes_Equal (a : option (list byte)) (b : list byte) : bool :=
  bool_decide (default [] a = b).

Definition echo_error : error :=
  ErrOther "strange, our PANDA key exchange echoed our exchange bytes".

(** The two error arms of the [update.Result != nil] case share their body. *)
Definition kx_failed (p : nat) (err : error) : M Client unit :=
  log ERROR (Error_text err) ;;
  with_contact p (set_pandaResult (Error_text err)) ;;
  with_contact p (set_IsPending false) ;;
  save ;;
  contact <- deref p ;;
  emit (KeyExchangeCompletedEvent (Nickname contact) (Some err)).

Definition processPANDAUpdate (update : PandaUpdate) : M Client unit :=
  c <- get ;;
  match contacts c !! pu_ID update with
  | None => log ERROR "failure to perform PANDA update: invalid contact ID"
  | Some p =>
      match pu_Err update, pu_Serialised update, pu_Result update with
      | Some err, _, _ =>
          (if decide (err = ErrReplyTimeout) then
             k <- next_tick ;;
             if session_GetPandaConfig k then
               log ERROR "PANDA handshake for client %s timed-out; restarting exchange" ;;
               contact <- deref p ;;
               k <- next_tick ;;
               if panda_UnmarshalKeyExchange k (pandaKeyExchange contact)
               then effect (SpawnKx (id contact))
               else panic "UnmarshalKeyExchange"
             else panic "panda failed, must have a panda service configured"
           else ret tt) ;;
          with_contact p (set_pandaResult (Error_text err)) ;;
          with_contact p (set_pandaShutdownChan None) ;;
          log INFO "Key exchange with %s failed: %s" ;;
          contact <- deref p ;;
          emit (KeyExchangeCompletedEvent (Nickname contact) (Some err)) ;;
          save
      | None, Some serialised, _ =>
          contact <- deref p ;;
          if bytes_Equal (pandaKeyExchange contact) serialised then
            log INFO "Strange, our PANDA key exchange echoed our exchange bytes: %s" ;;
            emit (KeyExchangeCompletedEvent (Nickname contact) (Some echo_error))
          else
            with_contact p (set_pandaKeyExchange (Some serialised)) ;;
            save
      | None, None, Some result =>
          log DEBUG "PANDA exchange completed" ;;
          with_contact p (set_pandaKeyExchange None) ;;
          match parseContactExchangeBytes result with
          | inl err =>
              kx_failed p (Errorf "failure to parse contact exchange bytes: " err)
          | inr exchange =>
              contact <- deref p ;;
              let '(r, err) := ratchet_ProcessKeyExchange
                                 (ratchet contact) (SignedKeyExchange exchange) in
              with_contact p (set_ratchet r) ;;
              match err with
              | Some err =>
                  kx_failed p (Errorf "Double ratchet key exchange failure: " err)
              | None =>
                  with_contact p
                    (set_spoolWriteDescriptor (SpoolWriteDescriptor_of exchange)) ;;
                  with_contact p (set_IsPending false) ;;
                  log INFO "Double ratchet key exchange completed!" ;;
                  contact <- deref p ;;
                  emit (KeyExchangeCompletedEvent (Nickname contact) None) ;;
                  save
              end
          end
      | None, None, None => save
      end
  end.

(** *** Runs of several operations

    The worker takes one operation or event at a time. *)

Fixpoint handleReplies (replyEvents : list MessageReplyEvent) : M Client unit :=
  match replyEvents with
  | [] => ret tt
  | replyEvent :: rest => handleReply replyEvent ;; handleReplies rest
  end.

Fixpoint send_all (nickname : string) (messages : list (list byte))
    : M Client unit :=
  match messages with
  | [] => ret tt
  | message :: rest => SendMessage nickname message ;; send_all nickname rest
  end.

(** *** Relations between the state before and after a step *)


(** Two states that differ in the statefile, the trace and the tick only. *)
Definition same_state (c c' : Client) : Prop :=
  user c' = user c /\ heap c' = heap c /\ contacts c' = contacts c
  /\ contactNicknames c' = contactNicknames c
  /\ spoolReadDescriptor c' = spoolReadDescriptor c
  /\ conversations c' = conversations c
  /\ conversationsMutex c' = conversationsMutex c
  /\ sendMap c' = sendMap c.


(** The state that a successful [save] leaves. *)
Definition saved (c : Client) : Client :=
  set_trace (trace c ++ [Log DEBUG "Saving statefile."; Saved])
    (set_statefile (Some (snapshot c))
       (set_tick (S (S (tick c))) (set_conversationsMutex false c))).

(** The update repeats the exchange bytes that the contact already holds. *)
Definition is_echo (c : Client) (update : PandaUpdate) : bool :=
  match contacts c !! pu_ID update, pu_Err update, pu_Serialised update with
  | Some p, None, Some serialised =>
      match heap c !! p with
      | Some k => bytes_Equal (pandaKeyExchange k) serialised
      | None => false
      end
  | _, _, _ => false
  end.

(** The error with which the [update.Result != nil] case gives up on the
    bytes [result] for the contact [k]: the parser's, or else the
    ratchet's, each wrapped as the source wraps it. *)
Definition kx_error (k : Contact) (result : list byte) : option error :=
  match parseContactExchangeBytes result with
  | inl err => Some (Errorf "failure to parse contact exchange bytes: " err)
  | inr exchange =>
      match snd (ratchet_ProcessKeyExchange
                   (ratchet k) (SignedKeyExchange exchange)) with
      | Some err => Some (Errorf "Double ratchet key exchange failure: " err)
      | None => None
      end
  end.

(** A step that emits nothing and leaves everything but the contacts'
    ratchets, the trace and the tick as it was. *)
Definition quiet_step (c c' : Client) : Prop :=
  user c' = user c /\ contacts c' = contacts c
  /\ contactNicknames c' = contactNicknames c
  /\ spoolReadDescriptor c' = spoolReadDescriptor c
  /\ conversations c' = conversations c
  /\ conversationsMutex c' = conversationsMutex c
  /\ sendMap c' = sendMap c
  /\ exists t, trace c' = trace c ++ t /\ emitted t = [].

(** The state in which [handleReply] calls [decryptMessage] for a response
    to a read of the tip: the offset is already advanced. *)
Definition tip_state (c : Client) (d : SpoolReadDescriptor) : Client :=
  set_spoolReadDescriptor (Some (IncrementOffset d))
    (set_trace
       (trace c
        ++ [Log DEBUG "Got a valid spool response: %d, status: %s, len %d in response to: %d";
            Log DEBUG "Calling decryptMessage(%x, xx)"]) c).

End Model.

(** ** A concrete world

    A small instance of [Externals] on which the client can be run.  The
    ratchet of a contact is a one-byte key: encryption prepends the key,
    decryption checks and strips it. *)

Module Toy.

Definition Encrypt (key : byte) (payload : list byte) : byte * list byte :=
  (key, key :: payload).

Definition Decrypt (key : byte) (ciphertext : list byte)
    : byte * (error + GoSlice) :=
  match ciphertext with
  | b :: rest =>
      if decide (b = key) then (key, inr (slice_of rest))
      else (key, inl (ErrOther "ratchet: wrong key"))
  | [] => (key, inl (ErrOther "ratchet: short ciphertext"))
  end.

Definition ProcessKeyExchange (key : byte) (kx : list byte)
    : byte * option error :=
  match kx with
  | [] => (key, Some (ErrOther "ratchet: empty key exchange"))
  | b :: _ => (b, None)
  end.

(** A spool response is a status byte, the message id and the message. *)
Definition ResponseFromBytes (b : list byte) : error + SpoolResponse :=
  match b with
  | st :: b0 :: b1 :: b2 :: b3 :: msg =>
      match BigEndian_Uint32 [b0; b1; b2; b3] with
      | Some n => inr {| sr_MessageID := n;
                         sr_IsOK := bool_decide (st = Byte.x00);
                         sr_Message := msg |}
      | None => inl (ErrOther "spool: short response")
      end
  | _ => inl (ErrOther "spool: short response")
  end.

(** A contact exchange is the byte that names the peer's spool followed by
    the signed key exchange; spool 0 stands for an absent descriptor. *)
Definition parseExchange (b : list byte) : error + contactExchange :=
  match b with
  | [] => inl (ErrOther "cbor: unexpected EOF")
  | sp :: kx =>
      inr {| SignedKeyExchange := kx;
             SpoolWriteDescriptor_of :=
               if decide (sp = Byte.x00) then None
               else Some {| swd_ID := [sp]; swd_Receiver := "spool";
                            swd_Provider := "provider" |} |}
  end.

Definition id16 (k : nat) : list byte := repeat (byte_of_Z (Z.of_nat k)) 16.

(** The capacity after [n] appends to an empty slice when a full slice is
    doubled: 0, 1, 2, 4, 4, 8, ... *)
Fixpoint cap_after (n : nat) : nat :=
  match n with
  | O => 0
  | S m => let c := cap_after m in
           if (n <=? c)%nat then c else if (c =? 0)%nat then 1 else 2 * c
  end.

(** Insertion sort, which is what [sort.Sort] runs on short slices: an
    element moves left past the elements it is [Less] than. *)
Fixpoint insert (x : msgWithID) (l : list msgWithID) : list msgWithID :=
  match l with
  | [] => [x]
  | y :: l' => if Less y x then y :: insert x l' else x :: l
  end.

Definition insertionSort (l : list msgWithID) : list msgWithID :=
  fold_right insert [] l.

Program Definition world : Externals := {|
  Ratchet := byte;
  ratchet_Encrypt := Encrypt;
  ratchet_Decrypt := Decrypt;
  ratchet_ProcessKeyExchange := ProcessKeyExchange;
  MaxMissingMessages := 17;
  DoubleRatchetPayloadLength := 8;
  AppendToSpool := fun spool ciphertext => inr (spool ++ ciphertext);
  SpoolResponseFromBytes := ResponseFromBytes;
  parseContactExchangeBytes := parseExchange;
  ErrReplyTimeout_text := "reply timeout";
  time_Now := fun k => Z.of_nat k;
  rand_Read := fun k => (id16 k, None);
  session_SendUnreliableMessage := fun k _ _ _ => inr (id16 k);
  session_GetPandaConfig := fun _ => true;
  panda_UnmarshalKeyExchange := fun _ _ => true;
  cbor_Marshal := fun _ => true;
  stateWorker_writeState := fun _ => true;
  range_order := fun _ _ l => l;
  append_cap := cap_after;
  sort_Sort := insertionSort;
|}.
Next Obligation. lia. Qed.
Next Obligation. reflexivity. Qed.
Next Obligation. reflexivity. Qed.
Next Obligation.
  intros n. induction n as [|n IH]; [lia|].
  change (cap_after (S n)) with
    (let c := cap_after n in
     if (S n <=? c)%nat then c else if (c =? 0)%nat then 1 else 2 * c).
  cbv zeta. destruct (Nat.leb_spec (S n) (cap_after n)); [lia|].
  destruct (Nat.eqb_spec (cap_after n) 0); lia.
Qed.
Next Obligation.
  intros l. unfold insertionSort. induction l as [|x l IH]; simpl; [constructor|].
  transitivity (x :: fold_right insert [] l); [|now constructor].
  generalize (fold_right insert [] l). clear. intros l.
  induction l as [|y l IH]; simpl; [reflexivity|].
  destruct (Less y x); [|reflexivity].
  rewrite IH. apply perm_swap.
Qed.
Next Obligation.
  intros l. unfold insertionSort. induction l as [|x l IH]; simpl; [constructor|].
  revert IH. generalize (fold_right insert [] l). clear. intros l Hl.
  induction Hl as [|y l Hl IH Hy]; simpl; [repeat constructor|].
  assert (Hins : forall z, Less x z = false -> Forall (fun b => Less b z = false) l ->
                           Forall (fun b => Less b z = false) (insert x l)).
  { clear. intros z Hz Hl. induction Hl as [|y l Hy Hl IH]; simpl.
    - repeat constructor. exact Hz.
    - destruct (Less y x); repeat constructor; auto. }
  destruct (Less y x) eqn:E.
  - constructor; [exact IH|]. apply Hins; [|exact Hy].
    unfold Less in *. apply Z.ltb_ge. apply Z.ltb_lt in E. lia.
  - constructor; [constructor; assumption|].
    constructor; [exact E|].
    eapply Forall_impl; [exact Hy|]. cbv beta. intros b Hb.
    unfold Less in *. apply Z.ltb_ge. apply Z.ltb_ge in E, Hb. lia.
Qed.

(** An established contact and a client that knows only that contact. *)
Definition bob_spool : SpoolWriteDescriptor :=
  {| swd_ID := [Byte.x09]; swd_Receiver := "spool"; swd_Provider := "provider" |}.

Definition bob : @Contact world :=
  {| id := 7; Nickname := "bob"; IsPending := false; UnACKed := 0;
     ratchet := Byte.x42 : @Ratchet world;
     spoolWriteDescriptor := Some bob_spool;
     pandaKeyExchange := None; pandaResult := ""; pandaShutdownChan := None |}.

Definition inbox (offset : Z) : SpoolReadDescriptor :=
  {| srd_ID := [Byte.x01]; srd_Receiver := "spool"; srd_Provider := "provider";
     ReadOffset := offset |}.

Definition client_of (k : @Contact world) (offset : Z) : @Client world :=
  {| user := "alice"; heap := {[ 1 := k ]}; contacts := {[ id k := 1 ]};
     contactNicknames := {[ Nickname k := 1 ]};
     spoolReadDescriptor := Some (inbox offset);
     conversations := ∅; conversationsMutex := false; sendMap := ∅;
     statefile := None; trace := []; tick := 0 |}.

Definition c0 : @Client world := client_of bob 5.

Definition hi : list byte := [Byte.x68; Byte.x69].

(** Inputs of the concrete runs. *)

(** A ciphertext that bob's ratchet decrypts to the four bytes ff ff ff ff,
    a frame that announces 2^32 - 1 bytes of payload. *)
Definition wrapping_frame : list byte :=
  [Byte.x42; Byte.xff; Byte.xff; Byte.xff; Byte.xff].

Definition with_conversation (convo : gmap MessageID Message)
    (c : @Client world) : @Client world :=
  set_conversations {[ "bob" := convo ]} c.

Definition with_tracker (transport : TransportID) (d : SentMessageDescriptor)
    (c : @Client world) : @Client world :=
  set_sendMap {[ ArrayKey transport := d ]} c.

(** An outbound message that the session has sent and the spool has not
    acknowledged. *)
Definition sent_msg (timestamp : Z) (ciphertext : list byte) : Message :=
  {| Plaintext := []; Ciphertext := ciphertext; Timestamp := timestamp;
     Outbound := true; Sent := true; Delivered := false |}.

Definition unsent_msg : Message :=
  {| Plaintext := hi; Ciphertext := []; Timestamp := 1;
     Outbound := true; Sent := false; Delivered := false |}.

(** Four undelivered messages with one and the same timestamp. *)
Definition convo4 : gmap MessageID Message :=
  <[id16 1 := sent_msg 5 [Byte.x01]]>
    (<[id16 2 := sent_msg 5 [Byte.x02]]>
      (<[id16 3 := sent_msg 5 [Byte.x03]]>
        (<[id16 4 := sent_msg 5 [Byte.x04]]> ∅))).

(** bob with a full window, and a client that holds [convo4] for him. *)
Definition bob_full : @Contact world := set_UnACKed 16 bob.

Definition c_full : @Client world :=
  with_conversation convo4 (client_of bob_full 5).

(** A contact whose key exchange is still running. *)
Definition carol : @Contact world :=
  {| id := 8; Nickname := "carol"; IsPending := true; UnACKed := 0;
     ratchet := Byte.x00 : @Ratchet world;
     spoolWriteDescriptor := None;
     pandaKeyExchange := Some [Byte.x01]; pandaResult := "";
     pandaShutdownChan := Some 3 |}.

Definition c_pending : @Client world := client_of carol 5.

Definition kx_update (err : option error) (serialised result : option (list byte))
    : PandaUpdate :=
  {| pu_ID := 8; pu_Err := err; pu_Serialised := serialised; pu_Result := result |}.

(** A spool response with status OK for message [n] that carries the
    ciphertext [message]. *)
Definition ok_response (n : Z) (message : list byte) : list byte :=
  Byte.x00 :: BigEndian_PutUint32 n ++ message.

Definition hi_ciphertext : list byte := Byte.x42 :: frame 8 hi.

(** The reply to a read of slot [n], and a client that waits for it with
    its read offset at [n]. *)
Definition read_reply (n : Z) : MessageReplyEvent :=
  {| mre_MessageID := id16 9; mre_Payload := ok_response n hi_ciphertext |}.

Definition c_reading (n : Z) : @Client world :=
  with_tracker (id16 9)
    {| smd_Nickname := "alice"; smd_MessageID := BigEndian_PutUint32 n ++ repeat Byte.x00 12 |}
    (client_of bob n).

(** The acknowledgement of a spool write for a message that is no longer
    in the conversation, and a client that waits for it. *)
Definition ack_reply : MessageReplyEvent :=
  {| mre_MessageID := id16 9; mre_Payload := ok_response 0 [] |}.

Definition c_acking : @Client world :=
  with_tracker (id16 9) {| smd_Nickname := "bob"; smd_MessageID := id16 3 |}
    (client_of (set_UnACKed 1 bob) 5).

End Toy.

(** * Properties *)

(** ** Bytes and framing *)

Lemma Z_of_byte_of_Z (z : Z) : Z_of_byte (byte_of_Z z) = (z mod 256)%Z.
Proof.
  unfold Z_of_byte, byte_of_Z, byte_of_N.
  assert (Hr : (0 <= z mod 256 < 256)%Z) by (apply Z.mod_pos_bound; lia).
  destruct (Byte.of_N (Z.to_N (z mod 256))) eqn:E.
  - apply Byte.to_of_N in E. rewrite E. lia.
  - apply Byte.of_N_None_iff in E. lia.
Qed.

Lemma testbit_uint32_high (v n : Z) :
  (0 <= v < 2 ^ 32)%Z -> (32 <= n)%Z -> Z.testbit v n = false.
Proof.
  intros Hv Hn. rewrite <- (Z.mod_small v (2 ^ 32)) by lia.
  rewrite Z.testbit_mod_pow2 by lia.
  destruct (Z.ltb_spec n 32); [lia | reflexivity].
Qed.

Lemma testbit_byte_piece (v k n : Z) :
  (0 <= k)%Z -> (0 <= n)%Z ->
  Z.testbit (Z.shiftl (Z.shiftr v k mod 2 ^ 8) k) n
  = ((k <=? n)%Z && (n <? k + 8)%Z && Z.testbit v n)%bool.
Proof.
  intros Hk Hn. rewrite Z.shiftl_spec by lia.
  destruct (Z.leb_spec k n) as [Hle|Hlt].
  - rewrite Z.testbit_mod_pow2 by lia. rewrite Z.shiftr_spec by lia.
    rewrite Z.sub_add. simpl.
    destruct (Z.ltb_spec (n - k) 8), (Z.ltb_spec n (k + 8)); try lia; reflexivity.
  - rewrite Z.testbit_neg_r by lia. reflexivity.
Qed.

(** Reading back what [PutUint32] wrote gives the value. *)
Lemma BigEndian_Uint32_PutUint32 (v : Z) :
  (0 <= v < 2 ^ 32)%Z ->
  BigEndian_Uint32 (BigEndian_PutUint32 v) = Some v.
Proof.
  intros Hv. unfold BigEndian_PutUint32, BigEndian_Uint32. f_equal.
  rewrite !Z_of_byte_of_Z. change 256%Z with (2 ^ 8)%Z.
  apply Z.bits_inj'. intros n Hn.
  rewrite !Z.lor_spec, !testbit_byte_piece by lia.
  rewrite Z.testbit_mod_pow2 by lia.
  destruct (Z.ltb_spec n 32) as [Hlt|Hge].
  - destruct (Z.ltb_spec n 8), (Z.leb_spec 8 n), (Z.ltb_spec n (8 + 8)),
      (Z.leb_spec 16 n), (Z.ltb_spec n (16 + 8)), (Z.leb_spec 24 n),
      (Z.ltb_spec n (24 + 8)); try lia; simpl;
      rewrite ?orb_false_r; reflexivity.
  - rewrite (testbit_uint32_high v n) by lia.
    rewrite !andb_false_r. reflexivity.
Qed.

Lemma skipn_repeat_same {A} (x : A) (n m : nat) :
  skipn n (repeat x m) = repeat x (m - n).
Proof.
  revert m. induction n as [|n IH]; intros [|m]; simpl; auto.
Qed.

Lemma length_PutUint32 (v : Z) : length (BigEndian_PutUint32 v) = 4.
Proof. reflexivity. Qed.

(** The buffer that [doSendMessage] hands to the ratchet: the prefix, as
    much of the message as fits, zeros. *)
Lemma frame_eq (DRPL : nat) (message : list byte) :
  4 <= DRPL ->
  frame DRPL message
  = BigEndian_PutUint32 (uint32 (Z.of_nat (length message)))
    ++ firstn (DRPL - 4) message
    ++ repeat Byte.x00 (DRPL - 4 - length message).
Proof.
  intros HD. do 4 (destruct DRPL as [|DRPL]; [lia|]).
  unfold frame, go_copy. simpl.
  rewrite !drop_0, repeat_length, skipn_repeat_same, !Nat.sub_0_r. reflexivity.
Qed.

Lemma length_frame (DRPL : nat) (message : list byte) :
  4 <= DRPL -> length (frame DRPL message) = DRPL.
Proof.
  intros HD. rewrite frame_eq by exact HD.
  rewrite !length_app, length_PutUint32, length_firstn, repeat_length. lia.
Qed.

Lemma reslice_Some (s : GoSlice) (lo hi : nat) :
  lo <= hi -> hi <= sl_cap s ->
  reslice s lo hi
  = Some {| sl_elems := firstn (hi - lo) (skipn lo (sl_elems s ++ sl_spare s));
            sl_spare := skipn hi (sl_elems s ++ sl_spare s) |}.
Proof.
  intros H1 H2. unfold reslice, sl_cap in *. rewrite length_app.
  destruct (Nat.leb_spec lo hi); [|lia].
  destruct (Nat.leb_spec hi (length (sl_elems s) + length (sl_spare s))); [|lia].
  reflexivity.
Qed.

Lemma reslice_None (s : GoSlice) (lo hi : nat) :
  hi < lo \/ sl_cap s < hi -> reslice s lo hi = None.
Proof.
  intros Hb. unfold reslice, sl_cap in *. rewrite length_app.
  destruct (Nat.leb_spec lo hi);
    destruct (Nat.leb_spec hi (length (sl_elems s) + length (sl_spare s)));
    try reflexivity; lia.
Qed.

(** What [unframe] does with a plaintext that starts with the four bytes
    of [n]: it panics exactly when [4 + n], as a uint32, is below 4 or
    above the capacity. *)
Lemma unframe_prefix (n : Z) (body spare : list byte) :
  (0 <= n < 2 ^ 32)%Z ->
  let s := {| sl_elems := BigEndian_PutUint32 n ++ body; sl_spare := spare |} in
  unframe s = reslice s 4 (Z.to_nat (uint32 (4 + n))).
Proof.
  intros Hn s. unfold unframe.
  rewrite reslice_Some by (unfold sl_cap, s; simpl; lia).
  cbn [sl_elems]. unfold s. cbn [sl_elems sl_spare].
  rewrite drop_0, <- app_assoc.
  rewrite (take_app_length' (BigEndian_PutUint32 n)) by reflexivity.
  rewrite BigEndian_Uint32_PutUint32 by exact Hn. reflexivity.
Qed.

(** P6: a plaintext that fits is read back from its frame. *)
Lemma unframe_frame (DRPL : nat) (message : list byte) :
  4 <= DRPL -> (Z.of_nat DRPL < 2 ^ 32)%Z -> length message <= DRPL - 4 ->
  option_map sl_elems (unframe (slice_of (frame DRPL message))) = Some message.
Proof.
  intros HD H32 Hlen. rewrite frame_eq by exact HD. unfold slice_of.
  assert (Hu : uint32 (Z.of_nat (length message)) = Z.of_nat (length message)).
  { unfold uint32. apply Z.mod_small. lia. }
  rewrite Hu, unframe_prefix by lia.
  assert (Hu' : uint32 (4 + Z.of_nat (length message))
                = Z.of_nat (4 + length message)).
  { unfold uint32. rewrite Z.mod_small by lia. lia. }
  rewrite Hu', Nat2Z.id.
  rewrite reslice_Some; [| lia |].
  - cbn [option_map sl_elems sl_spare]. f_equal.
    rewrite app_nil_r.
    rewrite (drop_app_length' (BigEndian_PutUint32 _)) by reflexivity.
    rewrite (take_ge message) by lia.
    apply take_app_length'. lia.
  - unfold sl_cap. cbn [sl_elems sl_spare].
    rewrite !length_app, length_PutUint32, length_firstn, repeat_length. simpl. lia.
Qed.

(** C4, at the failing input: a plaintext longer than
    [DoubleRatchetPayloadLength - 4] is not refused.  The frame that
    [doSendMessage] encrypts carries the full length in its prefix but only
    the first [DoubleRatchetPayloadLength - 4] bytes of the plaintext, and
    the receiving side cannot read it back. *)
Theorem frame_oversize_truncates (DRPL : nat) (message : list byte) :
  4 <= DRPL -> (Z.of_nat (length message) < 2 ^ 32 - 4)%Z ->
  DRPL - 4 < length message ->
  frame DRPL message
  = BigEndian_PutUint32 (Z.of_nat (length message)) ++ firstn (DRPL - 4) message
  /\ firstn (DRPL - 4) message <> message
  /\ unframe (slice_of (frame DRPL message)) = None.
Proof.
  intros HD H32 Hlen.
  assert (Hu : uint32 (Z.of_nat (length message)) = Z.of_nat (length message)).
  { unfold uint32. apply Z.mod_small. lia. }
  assert (Hf : frame DRPL message
               = BigEndian_PutUint32 (Z.of_nat (length message))
                 ++ firstn (DRPL - 4) message).
  { rewrite frame_eq by exact HD. rewrite Hu.
    replace (DRPL - 4 - length message) with 0 by lia.
    simpl repeat. now rewrite app_nil_r. }
  split; [exact Hf|]. split.
  - intros Heq. apply (f_equal (@length byte)) in Heq.
    rewrite length_firstn in Heq. lia.
  - rewrite Hf. unfold slice_of. rewrite unframe_prefix by lia.
    apply reslice_None. right. unfold sl_cap. cbn [sl_elems sl_spare].
    rewrite length_app, length_PutUint32, length_firstn. simpl length.
    unfold uint32. rewrite Z.mod_small by lia. lia.
Qed.

Lemma frame_oversize_truncates_witness :
  frame 8 [Byte.x01; Byte.x02; Byte.x03; Byte.x04; Byte.x05]
  = BigEndian_PutUint32 5 ++ [Byte.x01; Byte.x02; Byte.x03; Byte.x04]
  /\ [Byte.x01; Byte.x02; Byte.x03; Byte.x04]
     <> [Byte.x01; Byte.x02; Byte.x03; Byte.x04; Byte.x05]
  /\ unframe (slice_of (frame 8 [Byte.x01; Byte.x02; Byte.x03; Byte.x04; Byte.x05]))
     = None.
Proof.
  apply (frame_oversize_truncates 8
           [Byte.x01; Byte.x02; Byte.x03; Byte.x04; Byte.x05]);
    simpl; lia.
Defined.

(** ** Reasoning about runs *)

Section Hoare.
Context {S : Type}.

Lemma wp_ret {A} (a : A) (Q : A -> S -> Prop) (s : S) : Q a s -> wp (ret a) Q s.
Proof. exact (fun H => H). Qed.

Lemma wp_bind {A B} (m : M S A) (k : A -> M S B) (Q : B -> S -> Prop) (s : S) :
  wp m (fun a s' => wp (k a) Q s') s -> wp (bind m k) Q s.
Proof. unfold wp, bind. destruct (m s); auto. Qed.

Lemma wp_mono {A} (m : M S A) (Q1 Q2 : A -> S -> Prop) (s : S) :
  wp m Q1 s -> (forall a s', Q1 a s' -> Q2 a s') -> wp m Q2 s.
Proof. unfold wp. destruct (m s); auto. Qed.

Lemma wp_Done {A} (m : M S A) (Q : A -> S -> Prop) (s s' : S) (a : A) :
  wp m Q s -> m s = Done a s' -> Q a s'.
Proof. unfold wp. intros Hwp E. now rewrite E in Hwp. Qed.

Lemma wp_modify (f : S -> S) (Q : unit -> S -> Prop) (s : S) :
  Q tt (f s) -> wp (modify f) Q s.
Proof. exact (fun H => H). Qed.

Lemma wp_get (Q : S -> S -> Prop) (s : S) : Q s s -> wp get Q s.
Proof. exact (fun H => H). Qed.

Lemma wp_panic {A} (why : string) (Q : A -> S -> Prop) (s : S) :
  wp (panic why) Q s.
Proof. exact I. Qed.




End Hoare.

Section Properties.
Context `{Externals}.

Lemma range_order_singleton (k : nat) (A : Type) (x : A) :
  range_order k A [x] = [x].
Proof.
  apply Permutation_length_1_inv. symmetry. apply range_order_perm.
Qed.

Lemma heap_set_tick (n : nat) (c : Client) : heap (set_tick n c) = heap c.
Proof. reflexivity. Qed.

(** ** Trial decryption *)

(** C1, at the failing input: when the only contact is established and its
    ratchet decrypts the ciphertext to a plaintext whose length prefix
    points outside the plaintext, [decryptMessage] panics. *)
Theorem decryptMessage_unchecked_frame
    (c : Client) (cid : Z) (p : nat) (contact : Contact)
    (messageID : TransportID) (ciphertext : list byte)
    (r : Ratchet) (plaintext : GoSlice) :
  contacts c = {[ cid := p ]} ->
  heap c !! p = Some contact ->
  IsPending contact = false ->
  ratchet_Decrypt (ratchet contact) ciphertext = (r, inr plaintext) ->
  unframe plaintext = None ->
  decryptMessage messageID ciphertext c = Panic "slice bounds out of range".
Proof.
  intros Hc Hp Hpend Hdec Hfr.
  unfold decryptMessage, bind, get, next_tick.
  rewrite Hc, map_to_list_singleton. cbn [map snd].
  rewrite range_order_singleton. cbn [trial_decrypt].
  unfold bind, deref. rewrite heap_set_tick, Hp, Hpend, Hdec.
  unfold with_contact, bind, deref, modify. rewrite heap_set_tick, Hp.
  rewrite Hfr. reflexivity.
Qed.

(** ** Retransmission *)

Lemma collect_perm (l l' : list (MessageID * Message)) :
  Permutation l l' -> Permutation (collect l) (collect l').
Proof.
  unfold collect. intros HP. apply Permutation_map.
  induction HP as [| [i m] l l' _ IH | [i m] [j n] l | l l' l'' _ IH1 _ IH2];
    simpl.
  - constructor.
  - destruct (undelivered m); [constructor|]; exact IH.
  - destruct (undelivered m), (undelivered n); try reflexivity. apply perm_swap.
  - etransitivity; eassumption.
Qed.

(** The candidates are the undelivered messages of the conversation,
    whatever the order of the visit. *)
Lemma retransmit_candidates_perm (k : nat) (convMap : gmap MessageID Message) :
  Permutation (retransmit_candidates k convMap) (collect (map_to_list convMap)).
Proof. apply collect_perm, range_order_perm. Qed.

Lemma sort_Sort_length (l : list msgWithID) : length (sort_Sort l) = length l.
Proof. apply Permutation_length, sort_Sort_perm. Qed.

(** A [nil] cell among the slots stops the loop before it can return
    [nil]: it panics there, unless a submission failed earlier. *)
Lemma retransmit_loop_nil_slot (contact : Contact) (msgs : list msgWithID)
    (rest : list (option msgWithID)) (c c' : Client) :
  retransmit_loop contact (map Some msgs ++ None :: rest) c <> Done None c'.
Proof.
  revert c. induction msgs as [|m msgs IH]; intros c; simpl.
  - destruct (spoolWriteDescriptor contact); discriminate.
  - destruct (spoolWriteDescriptor contact) as [d|]; [|discriminate].
    destruct (AppendToSpool _ _) as [err|cmd]; [discriminate|].
    unfold bind at 1. unfold next_tick.
    unfold bind at 1. unfold effect at 1, modify.
    destruct (session_SendUnreliableMessage _ _ _ _) as [err|mesgID];
      [discriminate|].
    unfold bind at 1. unfold log at 1, effect at 1, modify.
    unfold bind at 1. unfold sendMap_Store at 1, modify.
    apply IH.
Qed.

Lemma slice_to_short {A} (cap : nat) (l : list A) :
  length l < someLimit -> length l <= cap ->
  slice_to cap l someLimit = None
  \/ exists rest, slice_to cap l someLimit = Some (map Some l ++ None :: rest).
Proof.
  intros Hl Hc. unfold slice_to, someLimit in *.
  destruct (Nat.leb_spec 4 cap) as [H4|H4]; [right|left; reflexivity].
  rewrite take_app, length_map.
  rewrite (take_ge (map Some l)) by (rewrite length_map; lia).
  destruct (cap - length l) as [|n] eqn:E1; [lia|].
  destruct (4 - length l) as [|m] eqn:E2; [lia|].
  simpl. eauto.
Qed.

(** With fewer than four candidates [doRetransmit] does not return
    [nil]. *)
Lemma doRetransmit_needs_four
    (c c' : Client) (p : nat) (contact : Contact) (convMap : gmap MessageID Message) :
  heap c !! p = Some contact ->
  conversations c !! Nickname contact = Some convMap ->
  length (collect (map_to_list convMap)) < someLimit ->
  doRetransmit p c <> Done None c'.
Proof.
  intros Hp Hconv Hlen.
  assert (Hn : length (retransmit_candidates (tick c) convMap)
               = length (collect (map_to_list convMap)))
    by apply Permutation_length, retransmit_candidates_perm.
  unfold doRetransmit, bind, deref, get, next_tick. rewrite Hp, Hconv.
  destruct (slice_to_short
              (append_cap (length (retransmit_candidates (tick c) convMap)))
              (sort_Sort (retransmit_candidates (tick c) convMap)))
    as [E|[rest E]].
  - rewrite sort_Sort_length, Hn. exact Hlen.
  - rewrite sort_Sort_length. apply append_cap_ge.
  - rewrite E. discriminate.
  - rewrite E. apply retransmit_loop_nil_slot.
Qed.

(** C2, at the failing inputs: with fewer than four undelivered messages
    in the conversation [doRetransmit] never returns [nil], and with none
    it panics on [rTx[:someLimit]]. *)
Theorem doRetransmit_short_queue
    (c : Client) (p : nat) (contact : Contact) (convMap : gmap MessageID Message) :
  heap c !! p = Some contact ->
  conversations c !! Nickname contact = Some convMap ->
  length (collect (map_to_list convMap)) < someLimit ->
  (forall c', doRetransmit p c <> Done None c')
  /\ (collect (map_to_list convMap) = [] ->
      doRetransmit p c = Panic "slice bounds out of range").
Proof.
  intros Hp Hconv Hlen. split.
  - intros c'. now apply (doRetransmit_needs_four c c' p contact convMap).
  - intros Hnil.
    assert (Hn : length (retransmit_candidates (tick c) convMap)
                 = length (collect (map_to_list convMap)))
      by apply Permutation_length, retransmit_candidates_perm.
    unfold doRetransmit, bind, deref, get, next_tick. rewrite Hp, Hconv.
    rewrite Hnil in Hn.
    destruct (retransmit_candidates (tick c) convMap) as [|x l] eqn:E;
      [|discriminate].
    simpl length. rewrite append_cap_0. reflexivity.
Qed.





Lemma submitted_app (t1 t2 : list Effect) :
  submitted (t1 ++ t2) = submitted t1 ++ submitted t2.
Proof. unfold submitted. apply omap_app. Qed.

(** When the loop returns [nil] every slot held a message, and the
    commands went out in the order of the slots. *)
Lemma retransmit_loop_order (contact : Contact) (d : SpoolWriteDescriptor)
    (slots : list (option msgWithID)) (c : Client) :
  spoolWriteDescriptor contact = Some d ->
  wp (retransmit_loop contact slots)
     (fun r c' => r = None ->
        exists msgs t, slots = map Some msgs /\ trace c' = trace c ++ t
          /\ Forall2 (fun m cmd =>
                 AppendToSpool (swd_ID d) (Ciphertext (mwid_msg m)) = inr cmd)
               msgs (submitted t)) c.
Proof.
  intros Hd. revert c. induction slots as [|slot slots IH]; intros c.
  - intros _. exists [], []. rewrite app_nil_r. repeat split. constructor.
  - simpl. rewrite Hd. destruct slot as [msg|]; [|exact I].
    destruct (AppendToSpool _ _) as [err|cmd] eqn:EA.
    + unfold wp, bind, log, effect, modify, ret. simpl. discriminate.
    + unfold wp, bind, next_tick, effect, modify. simpl.
      destruct (session_SendUnreliableMessage _ _ _ _) as [err|mesgID].
      * unfold log, effect, modify, ret. simpl. discriminate.
      * unfold log, effect, sendMap_Store, modify. simpl.
        match goal with |- context [retransmit_loop contact slots ?c1] =>
          specialize (IH c1); unfold wp in IH;
          destruct (retransmit_loop contact slots c1) as [r c'| |]; try exact I
        end.
        intros Hr. destruct (IH Hr) as (msgs & t & Hs & Ht & HF).
        simpl in Ht. rewrite <- !app_assoc in Ht.
        eexists (msg :: msgs), _. split; [now rewrite Hs|].
        split; [exact Ht|].
        rewrite submitted_app. simpl. constructor; assumption.
Qed.

Lemma Less_false_le (a b : msgWithID) :
  Less b a = false <-> (Timestamp (mwid_msg a) <= Timestamp (mwid_msg b))%Z.
Proof. unfold Less. rewrite Z.ltb_ge. reflexivity. Qed.

Lemma StronglySorted_take {A} (R : A -> A -> Prop) (n : nat) (l : list A) :
  StronglySorted R l -> StronglySorted R (firstn n l).
Proof.
  intros HS. revert n. induction HS as [|x l HS IH Hx]; intros [|n]; simpl;
    try constructor.
  - apply IH.
  - apply Forall_take. exact Hx.
Qed.

Lemma StronglySorted_weaken {A} (R1 R2 : A -> A -> Prop) (l : list A) :
  (forall a b, R1 a b -> R2 a b) -> StronglySorted R1 l -> StronglySorted R2 l.
Proof.
  intros HR HS. induction HS as [|x l HS IH Hx]; constructor; [exact IH|].
  eapply Forall_impl; [exact Hx|]. intros b. apply HR.
Qed.

(** C9, amended: the messages that [doRetransmit] resubmits are the first
    four of the undelivered outbound messages in ascending order of their
    timestamps, and they are submitted in that order.  Nothing orders two
    messages with the same timestamp. *)
Theorem doRetransmit_ascending_timestamps
    (c c' : Client) (p : nat) (contact : Contact)
    (convMap : gmap MessageID Message) (d : SpoolWriteDescriptor) :
  heap c !! p = Some contact ->
  conversations c !! Nickname contact = Some convMap ->
  spoolWriteDescriptor contact = Some d ->
  doRetransmit p c = Done None c' ->
  exists queue t,
    queue = firstn someLimit (sort_Sort (retransmit_candidates (tick c) convMap))
    /\ length queue = someLimit
    /\ StronglySorted
         (fun a b => (Timestamp (mwid_msg a) <= Timestamp (mwid_msg b))%Z) queue
    /\ Forall (fun m => convMap !! mID m = Some (mwid_msg m)
                        /\ undelivered (mwid_msg m) = true) queue
    /\ trace c' = trace c ++ t
    /\ Forall2 (fun m cmd =>
           AppendToSpool (swd_ID d) (Ciphertext (mwid_msg m)) = inr cmd)
         queue (submitted t).
Proof.
  intros Hp Hconv Hd Hrun.
  assert (Hn : length (retransmit_candidates (tick c) convMap)
               = length (collect (map_to_list convMap)))
    by apply Permutation_length, retransmit_candidates_perm.
  assert (Hlen : someLimit <= length (retransmit_candidates (tick c) convMap)).
  { destruct (le_lt_dec someLimit (length (collect (map_to_list convMap))))
      as [Hle|Hlt]; [lia|].
    now destruct (doRetransmit_needs_four c c' p contact convMap Hp Hconv Hlt). }
  unfold doRetransmit, bind, deref, get, next_tick in Hrun.
  rewrite Hp, Hconv in Hrun.
  set (rTx := sort_Sort (retransmit_candidates (tick c) convMap)) in *.
  assert (Hslots : slice_to (append_cap (length (retransmit_candidates (tick c) convMap)))
                     rTx someLimit = Some (map Some (firstn someLimit rTx))).
  { unfold slice_to.
    pose proof (append_cap_ge (length (retransmit_candidates (tick c) convMap))).
    destruct (Nat.leb_spec someLimit
                (append_cap (length (retransmit_candidates (tick c) convMap))));
      [|lia].
    f_equal. rewrite take_app_le.
    - apply firstn_map.
    - rewrite length_map. unfold rTx. rewrite sort_Sort_length. exact Hlen. }
  rewrite Hslots in Hrun.
  pose proof (retransmit_loop_order contact d (map Some (firstn someLimit rTx))
                (set_tick (S (tick c)) c) Hd) as HL.
  destruct (wp_Done _ _ _ _ _ HL Hrun eq_refl) as (msgs & t & Hs & Ht & HF).
  apply (inj (map Some)) in Hs. subst msgs.
  exists (firstn someLimit rTx), t.
  split; [reflexivity|]. split.
  { rewrite length_take. unfold rTx. rewrite sort_Sort_length. lia. }
  split.
  { apply StronglySorted_take. unfold rTx.
    eapply StronglySorted_weaken; [|apply sort_Sort_sorted].
    intros a b. apply Less_false_le. }
  split.
  { apply Forall_take. unfold rTx. apply Forall_forall. intros m Hm.
    apply list_elem_of_In in Hm.
    rewrite (sort_Sort_perm _), (retransmit_candidates_perm _ _) in Hm.
    unfold collect in Hm. apply in_map_iff in Hm.
    destruct Hm as ([i msg] & <- & Hin). simpl.
    apply filter_In in Hin. destruct Hin as [Hin Hu].
    apply list_elem_of_In, elem_of_map_to_list in Hin. auto. }
  split; [exact Ht | exact HF].
Qed.

(** ** Persisting *)

(** [save] blocks when the caller holds [conversationsMutex]: [marshal]
    takes the mutex again, through [GetAllConversations]. *)
Lemma save_Hang (c : Client) : conversationsMutex c = true -> save c = Hang.
Proof.
  intros Hm. unfold save, bind, log, effect, modify, marshal, bind,
    GetAllConversations, bind, Lock. simpl. now rewrite Hm.
Qed.


Lemma save_wp (c : Client) :
  wp save (fun _ c' =>
       same_state c c' /\ conversationsMutex c = false
       /\ trace c' = trace c ++ [Log DEBUG "Saving statefile."; Saved]) c.
Proof.
  unfold wp, save, bind, log, effect, modify, marshal, bind,
    GetAllConversations, bind, Lock, Unlock, get, next_tick, ret, panic. simpl.
  destruct (conversationsMutex c) eqn:Hm; simpl; [exact I|].
  destruct (cbor_Marshal (tick c)); simpl; [|exact I].
  destruct (stateWorker_writeState (S (tick c))); simpl; [|exact I].
  unfold same_state. simpl. rewrite <- app_assoc. repeat split. congruence.
Qed.

Lemma save_twp (c : Client) :
  conversationsMutex c = false ->
  cbor_Marshal (tick c) = true ->
  stateWorker_writeState (S (tick c)) = true ->
  twp save (fun _ c' =>
       same_state c c'
       /\ trace c' = trace c ++ [Log DEBUG "Saving statefile."; Saved]) c.
Proof.
  intros Hm Hc Hw.
  unfold twp, save, bind, log, effect, modify, marshal, bind,
    GetAllConversations, bind, Lock, Unlock, get, next_tick, ret, panic. simpl.
  rewrite Hm. simpl. rewrite Hc. simpl. rewrite Hw. simpl.
  unfold same_state. simpl. rewrite <- app_assoc. repeat split. congruence.
Qed.

(** ** Sending *)

(** C8: a send to a nickname that is not in [contactNicknames] returns the
    conversation id it drew and stores under that id, in the conversation
    of the nickname, an outbound message that is neither sent nor
    delivered.  The conversation is the old one of the nickname (an empty
    one when there was none) with that one entry written, and the store is
    the old store with that one conversation written: every other message
    and every other conversation is as it was.  The trace gains the log
    line (after the fatal error, when the random source failed) and nothing
    else, so nothing is submitted to the session, no event is emitted and
    nothing is saved; the contacts, the tracker of sent messages and the
    statefile are as they were. *)
Theorem SendMessage_unknown_recipient
    (c : Client) (nickname : string) (message : list byte) :
  contactNicknames c !! nickname = None ->
  conversationsMutex c = false ->
  exists c' convo t,
    SendMessage nickname message c = Done (fst (rand_Read (tick c))) c'
    /\ conversations c' !! nickname = Some convo
    /\ convo !! fst (rand_Read (tick c))
       = Some {| Plaintext := message; Ciphertext := [];
                 Timestamp := time_Now (S (tick c)); Outbound := true;
                 Sent := false; Delivered := false |}
    /\ trace c' = trace c ++ t
    /\ submitted t = [] /\ emitted t = []
    /\ sendMap c' = sendMap c /\ heap c' = heap c
    /\ convo
       = <[fst (rand_Read (tick c)) :=
             {| Plaintext := message; Ciphertext := [];
                Timestamp := time_Now (S (tick c)); Outbound := true;
                Sent := false; Delivered := false |}]>
           (match conversations c !! nickname with
            | Some convo => convo
            | None => ∅
            end)
    /\ conversations c' = <[nickname := convo]> (conversations c)
    /\ (forall mesgID, mesgID <> fst (rand_Read (tick c)) ->
          convo !! mesgID = (conversations c !! nickname) ≫= (.!! mesgID))
    /\ (forall other, other <> nickname ->
          conversations c' !! other = conversations c !! other)
    /\ t = match snd (rand_Read (tick c)) with
           | Some e => [Fatal e]
           | None => []
           end ++ [Log ERROR "contact %s not found"]
    /\ saves t = 0
    /\ user c' = user c /\ contacts c' = contacts c
    /\ contactNicknames c' = contactNicknames c
    /\ spoolReadDescriptor c' = spoolReadDescriptor c
    /\ conversationsMutex c' = false
    /\ statefile c' = statefile c.
Proof.
  intros Hnone Hm.
  unfold SendMessage, bind, next_tick.
  destruct (rand_Read (tick c)) as [convoMesgID err]. cbn [fst snd].
  unfold doSendMessage, bind, next_tick, Lock, insert_message, Unlock, get,
    modify, effect, log.
  assert (Hother : forall (m : Message) (mesgID : MessageID),
            mesgID <> convoMesgID ->
            <[convoMesgID := m]>
              (match conversations c !! nickname with
               | Some convo => convo
               | None => ∅
               end) !! mesgID
            = (conversations c !! nickname) ≫= (.!! mesgID)).
  { intros m mesgID Hne. rewrite lookup_insert_ne by congruence.
    destruct (conversations c !! nickname); [reflexivity | apply lookup_empty]. }
  destruct err as [e|]; simpl; rewrite Hm; simpl; rewrite Hnone; simpl;
    unfold ret; eexists _, _, _;
    (split; [reflexivity|]); simpl;
    (split; [apply lookup_insert_eq|]);
    (split; [apply lookup_insert_eq|]);
    (split; [rewrite <- ?app_assoc; reflexivity|]);
    (split; [reflexivity|]); (split; [reflexivity|]);
    (split; [reflexivity|]); (split; [reflexivity|]);
    (split; [reflexivity|]); (split; [reflexivity|]);
    (split; [apply Hother|]);
    (split; [intros other Hne; apply lookup_insert_ne; congruence|]);
    (split; [reflexivity|]); (split; [reflexivity|]);
    repeat split.
Qed.

(** ** Key exchange updates *)



Lemma wp_effect (e : Effect) (Q : unit -> Client -> Prop) (c : Client) :
  Q tt (set_trace (trace c ++ [e]) c) -> wp (effect e) Q c.
Proof. exact (fun H => H). Qed.

Lemma wp_next_tick (Q : nat -> Client -> Prop) (c : Client) :
  Q (tick c) (set_tick (S (tick c)) c) -> wp next_tick Q c.
Proof. exact (fun H => H). Qed.

Lemma wp_deref (p : nat) (Q : Contact -> Client -> Prop) (c : Client) :
  (forall k, heap c !! p = Some k -> Q k c) -> wp (deref p) Q c.
Proof. unfold wp, deref. destruct (heap c !! p); auto. Qed.

Lemma wp_with_contact (p : nat) (f : Contact -> Contact)
    (Q : unit -> Client -> Prop) (c : Client) :
  (forall k, heap c !! p = Some k -> Q tt (set_heap (<[p := f k]> (heap c)) c)) ->
  wp (with_contact p f) Q c.
Proof.
  unfold wp, with_contact, bind, deref, modify. destruct (heap c !! p); auto.
Qed.

Lemma wp_Lock (Q : unit -> Client -> Prop) (c : Client) :
  (conversationsMutex c = false -> Q tt (set_conversationsMutex true c)) ->
  wp Lock Q c.
Proof. unfold wp, Lock. destruct (conversationsMutex c); auto. Qed.

Lemma wp_Unlock (Q : unit -> Client -> Prop) (c : Client) :
  (conversationsMutex c = true -> Q tt (set_conversationsMutex false c)) ->
  wp Unlock Q c.
Proof. unfold wp, Unlock. destruct (conversationsMutex c); auto. Qed.

Lemma wp_save (Q : unit -> Client -> Prop) (c : Client) :
  (conversationsMutex c = false -> Q tt (saved c)) -> wp save Q c.
Proof.
  intros HQ.
  unfold wp, save, bind, log, effect, modify, marshal, bind,
    GetAllConversations, bind, Lock, Unlock, get, next_tick, ret, panic. simpl.
  destruct (conversationsMutex c) eqn:Hm; simpl; [exact I|].
  destruct (cbor_Marshal (tick c)); simpl; [|exact I].
  destruct (stateWorker_writeState (S (tick c))); simpl; [|exact I].
  rewrite <- app_assoc. exact (HQ eq_refl).
Qed.

(** One step of symbolic execution of a [wp] goal. *)
Ltac wp_step :=
  lazymatch goal with
  | |- wp (bind _ _) _ _ => apply wp_bind
  | |- wp (ret _) _ _ => apply wp_ret
  | |- wp get _ _ => apply wp_get
  | |- wp (modify _) _ _ => apply wp_modify
  | |- wp (effect _) _ _ => apply wp_effect
  | |- wp (log _ _) _ _ => apply wp_effect
  | |- wp (emit _) _ _ => apply wp_effect
  | |- wp next_tick _ _ => apply wp_next_tick
  | |- wp (deref _) _ _ => apply wp_deref; intros ? ?
  | |- wp (with_contact _ _) _ _ => apply wp_with_contact; intros ? ?
  | |- wp Lock _ _ => apply wp_Lock; intros ?
  | |- wp Unlock _ _ => apply wp_Unlock; intros ?
  | |- wp save _ _ => apply wp_save; intros ?
  | |- wp (update_message _ _ _) _ _ => apply wp_modify
  | |- wp (insert_message _ _ _) _ _ => apply wp_modify
  | |- wp (sendMap_Store _ _) _ _ => apply wp_modify
  | |- wp (sendMap_Delete _) _ _ => apply wp_modify
  | |- wp (panic _) _ _ => exact I
  | |- wp (if ?b then _ else _) _ _ => destruct b eqn:?
  | |- wp (match ?x with _ => _ end) _ _ => destruct x eqn:?
  end.

Ltac wp_run := repeat (wp_step; cbn beta iota).

(** Projections of updated states, and lookups of what was just stored. *)
Ltac proj_simpl :=
  cbn [user heap contacts contactNicknames spoolReadDescriptor conversations
       conversationsMutex sendMap statefile trace tick set_heap
       set_spoolReadDescriptor set_conversations set_conversationsMutex
       set_sendMap set_statefile set_trace set_tick saved] in *.

Ltac heap_simpl :=
  proj_simpl;
  repeat match goal with
         | E : <[?p := _]> _ !! ?p = Some _ |- _ =>
             rewrite lookup_insert_eq in E; injection E as <-
         | E1 : ?m !! ?p = Some ?a, E2 : ?m !! ?p = Some ?b |- _ =>
             rewrite E1 in E2; injection E2 as <-
         end.


Lemma split_at_head {A} (a b : A) (l t1 : list A) :
  l = a :: b :: t1 -> l = [] ++ a :: b :: t1.
Proof. exact (fun E => E). Qed.

Lemma split_at_tail {A} (x a b : A) (l t0 t1 : list A) :
  l = t0 ++ a :: b :: t1 -> x :: l = (x :: t0) ++ a :: b :: t1.
Proof. now intros ->. Qed.

(** The trace of a completed arm, cut at the save. *)
Ltac cut_at_save :=
  cbn [app];
  repeat first [ apply split_at_head; reflexivity | apply split_at_tail ].

Ltac persisted_leaf :=
  eexists; (split; [rewrite <- ?app_assoc; reflexivity|]);
  (split; [reflexivity|]); (split; [reflexivity|]);
  eexists _, _; (split; [cut_at_save|]); (split; [reflexivity|]).

(** C7, amended: what a completed [processPANDAUpdate] leaves.  For an
    unknown contact id it is the error line in the log and nothing else.
    For the state echo it is the log line and the event with the echo
    error and nothing else: no save, the statefile and every contact as
    they were.  In every other case the state is saved exactly once and
    the statefile is the snapshot of the final state, so the save came
    after every write to the contact.  The failure, progress and success
    arms end with the save, whatever they emit comes before it; the arms
    for a result that does not parse or that the ratchet rejects emit
    nothing before the save and the event with the error right after it. *)
Theorem processPANDAUpdate_persists (c c' : Client) (update : PandaUpdate) :
  processPANDAUpdate update c = Done tt c' ->
  exists t, trace c' = trace c ++ t
    /\ saves t = match contacts c !! pu_ID update with
                 | Some _ => if is_echo c update then 0 else 1
                 | None => 0
                 end
    /\ match contacts c !! pu_ID update with
       | None =>
           c' = set_trace
                  (trace c
                   ++ [Log ERROR "failure to perform PANDA update: invalid contact ID"])
                  c
       | Some p =>
           if is_echo c update then
             exists k, heap c !! p = Some k
               /\ c' = set_trace
                         (trace c
                          ++ [Log INFO "Strange, our PANDA key exchange echoed our exchange bytes: %s";
                              Emit (KeyExchangeCompletedEvent
                                      (Nickname k) (Some echo_error))])
                         c
           else
             statefile c' = Some (snapshot c')
             /\ exists t0 t1,
                  t = t0 ++ [Log DEBUG "Saving statefile."; Saved] ++ t1
                  /\ saves t0 = 0
                  /\ match pu_Err update, pu_Serialised update,
                           pu_Result update with
                     | Some err, _, _ =>
                         t1 = []
                         /\ exists k, heap c !! p = Some k
                              /\ emitted t0
                                 = [KeyExchangeCompletedEvent
                                      (Nickname k) (Some err)]
                     | None, Some _, _ => t1 = [] /\ emitted t0 = []
                     | None, None, Some result =>
                         exists k, heap c !! p = Some k
                           /\ match kx_error k result with
                              | Some err =>
                                  emitted t0 = []
                                  /\ t1 = [Emit (KeyExchangeCompletedEvent
                                                   (Nickname k) (Some err))]
                              | None =>
                                  emitted t0
                                  = [KeyExchangeCompletedEvent (Nickname k) None]
                                  /\ t1 = []
                              end
                     | None, None, None => t0 = [] /\ t1 = []
                     end
       end.
Proof.
  intros Hrun.
  match goal with
  | |- ?G =>
      let Q := eval pattern c' in G in
      match Q with
      | ?F _ => refine (wp_Done (processPANDAUpdate update) (fun _ => F)
                          c c' tt _ Hrun)
      end
  end.
  clear Hrun c'. cbn beta.
  unfold is_echo, processPANDAUpdate, kx_failed, kx_error.
  wp_step. wp_step.
  destruct (contacts c !! pu_ID update) as [p|].
  2:{ wp_run. eexists. split; [reflexivity|]. split; reflexivity. }
  destruct (pu_Err update) as [err|];
    [|destruct (pu_Serialised update) as [ser|];
      [|destruct (pu_Result update) as [res|]]].
  - wp_run; heap_simpl; persisted_leaf; (split; [reflexivity|]);
      eexists; (split; [eassumption | reflexivity]).
  - wp_step. wp_step.
    match goal with E : heap c !! p = Some _ |- _ => rewrite E end. wp_step.
    + wp_run. proj_simpl.
      eexists. split; [rewrite <- ?app_assoc; reflexivity|].
      split; [reflexivity|]. eexists. split; [reflexivity|].
      unfold set_trace. proj_simpl. now rewrite <- app_assoc.
    + wp_run; heap_simpl; persisted_leaf; split; reflexivity.
  - wp_run; heap_simpl; persisted_leaf; eexists; (split; [eassumption|]);
      cbn [ratchet set_pandaKeyExchange] in *;
      repeat match goal with
             | E : ratchet_ProcessKeyExchange _ _ = _ |- _ => rewrite E; clear E
             end;
      cbn [snd]; split; reflexivity.
  - wp_run; heap_simpl; persisted_leaf; split; reflexivity.
Qed.

(** C5: what a completed update does to the contact it names.  A failure
    update keeps [IsPending] and records the error text.  A result update
    always ends with [IsPending = false]: with the descriptor of the exchange
    when the exchange parses and the ratchet accepts it, and, at the failing
    inputs, with the error text and the descriptor left as it was (nil for
    a contact that was pending) when the parser or the ratchet fails. *)
Theorem processPANDAUpdate_contact
    (c c' : Client) (update : PandaUpdate) (p : nat) (k : Contact) :
  contacts c !! pu_ID update = Some p ->
  heap c !! p = Some k ->
  processPANDAUpdate update c = Done tt c' ->
  exists k', heap c' !! p = Some k' /\
    match pu_Err update, pu_Serialised update, pu_Result update with
    | Some err, _, _ =>
        IsPending k' = IsPending k
        /\ pandaResult k' = Error_text err
        /\ pandaShutdownChan k' = None
        /\ spoolWriteDescriptor k' = spoolWriteDescriptor k
    | None, Some serialised, _ =>
        IsPending k' = IsPending k
        /\ spoolWriteDescriptor k' = spoolWriteDescriptor k
        /\ (k' = k \/ pandaKeyExchange k' = Some serialised)
    | None, None, Some result =>
        IsPending k' = false /\ pandaKeyExchange k' = None /\
        match parseContactExchangeBytes result with
        | inl err =>
            pandaResult k'
            = Error_text (Errorf "failure to parse contact exchange bytes: " err)
            /\ spoolWriteDescriptor k' = spoolWriteDescriptor k
            /\ ratchet k' = ratchet k
        | inr exchange =>
            match ratchet_ProcessKeyExchange
                    (ratchet k) (SignedKeyExchange exchange) with
            | (r, Some err) =>
                pandaResult k'
                = Error_text (Errorf "Double ratchet key exchange failure: " err)
                /\ spoolWriteDescriptor k' = spoolWriteDescriptor k
                /\ ratchet k' = r
            | (r, None) =>
                pandaResult k' = pandaResult k
                /\ spoolWriteDescriptor k' = SpoolWriteDescriptor_of exchange
                /\ ratchet k' = r
            end
        end
    | None, None, None => k' = k
    end.
Proof.
  intros Hid Hk Hrun.
  enough (Hwp : wp (processPANDAUpdate update)
     (fun _ c' => exists k', heap c' !! p = Some k' /\
        match pu_Err update, pu_Serialised update, pu_Result update with
        | Some err, _, _ =>
            IsPending k' = IsPending k
            /\ pandaResult k' = Error_text err
            /\ pandaShutdownChan k' = None
            /\ spoolWriteDescriptor k' = spoolWriteDescriptor k
        | None, Some serialised, _ =>
            IsPending k' = IsPending k
            /\ spoolWriteDescriptor k' = spoolWriteDescriptor k
            /\ (k' = k \/ pandaKeyExchange k' = Some serialised)
        | None, None, Some result =>
            IsPending k' = false /\ pandaKeyExchange k' = None /\
            match parseContactExchangeBytes result with
            | inl err =>
                pandaResult k'
                = Error_text (Errorf "failure to parse contact exchange bytes: " err)
                /\ spoolWriteDescriptor k' = spoolWriteDescriptor k
                /\ ratchet k' = ratchet k
            | inr exchange =>
                match ratchet_ProcessKeyExchange
                        (ratchet k) (SignedKeyExchange exchange) with
                | (r, Some err) =>
                    pandaResult k'
                    = Error_text (Errorf "Double ratchet key exchange failure: " err)
                    /\ spoolWriteDescriptor k' = spoolWriteDescriptor k
                    /\ ratchet k' = r
                | (r, None) =>
                    pandaResult k' = pandaResult k
                    /\ spoolWriteDescriptor k' = SpoolWriteDescriptor_of exchange
                    /\ ratchet k' = r
                end
            end
        | None, None, None => k' = k
        end) c)
    by exact (wp_Done _ _ _ _ _ Hwp Hrun).
  clear Hrun c'.
  unfold processPANDAUpdate, kx_failed.
  wp_step. wp_step. rewrite Hid.
  destruct (pu_Err update) as [err|];
    [|destruct (pu_Serialised update) as [ser|];
      [|destruct (pu_Result update) as [res|]]].
  - wp_run; heap_simpl; rewrite lookup_insert_eq; eexists;
      (split; [reflexivity|]); repeat split.
  - wp_run; heap_simpl; rewrite ?lookup_insert_eq; eexists;
      (split; [first [reflexivity | eassumption]|]); repeat split; auto.
  - wp_step. wp_step. wp_step. wp_step. heap_simpl.
    destruct (parseContactExchangeBytes res) as [err|exchange].
    + wp_run; heap_simpl; rewrite lookup_insert_eq; eexists;
        (split; [reflexivity|]); repeat split.
    + wp_step. wp_step. heap_simpl.
      destruct (ratchet_ProcessKeyExchange _ _) as [r [err|]];
        wp_run; heap_simpl; rewrite lookup_insert_eq; eexists;
        (split; [reflexivity|]); repeat split.
  - wp_run. heap_simpl. eexists. split; [eassumption|reflexivity].
Qed.

(** A send to an established contact that has no spool write descriptor
    passes the pending check and dereferences the nil descriptor at
    line 537. *)
Lemma SendMessage_nil_descriptor
    (c : Client) (nickname : string) (message : list byte)
    (p : nat) (k : Contact) :
  contactNicknames c !! nickname = Some p ->
  heap c !! p = Some k ->
  IsPending k = false ->
  spoolWriteDescriptor k = None ->
  UnACKed k <> (MaxMissingMessages - 1)%Z ->
  conversationsMutex c = false ->
  SendMessage nickname message c
  = Panic "invalid memory address or nil pointer dereference".
Proof.
  intros Hn Hk Hpend Hd Hw Hm.
  assert (Hsend : forall (c0 : Client) (convoMesgID : MessageID),
            contactNicknames c0 = contactNicknames c -> heap c0 = heap c ->
            conversationsMutex c0 = false ->
            doSendMessage convoMesgID nickname message c0
            = Panic "invalid memory address or nil pointer dereference").
  { intros c0 convoMesgID E1 E2 E3.
    unfold doSendMessage, bind, next_tick, Lock. proj_simpl. rewrite E3.
    unfold insert_message, modify, Unlock, get. proj_simpl. rewrite E1, Hn.
    unfold deref. proj_simpl. rewrite E2, Hk, Hpend.
    destruct (decide (UnACKed k = MaxMissingMessages - 1)%Z) as [|_];
      [contradiction|].
    unfold ret. proj_simpl. rewrite E2, Hk. cbn beta iota.
    destruct (ratchet_Encrypt (ratchet k) _) as [r ciphertext].
    unfold with_contact, bind, deref, modify. proj_simpl. rewrite E2, Hk.
    unfold update_message, modify. now rewrite Hd. }
  unfold SendMessage, bind, next_tick.
  destruct (rand_Read (tick c)) as [convoMesgID [e|]]; cbn beta iota;
    unfold effect, modify, ret; rewrite Hsend; try reflexivity; exact Hm.
Qed.

(** ** Receiving *)

Lemma emitted_app (t1 t2 : list Effect) :
  emitted (t1 ++ t2) = emitted t1 ++ emitted t2.
Proof. unfold emitted. apply omap_app. Qed.

Lemma received_app (t1 t2 : list Effect) :
  received (t1 ++ t2) = received t1 + received t2.
Proof. unfold received. now rewrite emitted_app, List.filter_app, length_app. Qed.


Lemma quiet_step_refl (c : Client) : quiet_step c c.
Proof.
  unfold quiet_step. repeat split; try reflexivity.
  exists []. now rewrite app_nil_r.
Qed.

Lemma quiet_step_trans (c1 c2 c3 : Client) :
  quiet_step c1 c2 -> quiet_step c2 c3 -> quiet_step c1 c3.
Proof.
  unfold quiet_step.
  intros (A1 & A2 & A3 & A4 & A5 & A6 & A7 & t1 & A8 & A9)
         (B1 & B2 & B3 & B4 & B5 & B6 & B7 & t2 & B8 & B9).
  repeat split; try congruence.
  exists (t1 ++ t2). rewrite B8, A8, emitted_app, A9, B9.
  now rewrite app_assoc.
Qed.

Lemma trial_decrypt_quiet (visit : list nat) (ciphertext : list byte)
    (c : Client) :
  wp (trial_decrypt visit ciphertext) (fun _ c' => quiet_step c c') c.
Proof.
  revert c. induction visit as [|p visit IH]; intros c.
  - apply quiet_step_refl.
  - cbn [trial_decrypt]. wp_step. wp_step. wp_step; [apply IH|].
    destruct (ratchet_Decrypt (ratchet k) ciphertext) as [r [err|plaintext]].
    + wp_step. wp_step. wp_step. wp_step.
      eapply wp_mono; [apply IH|]. cbn beta. intros _ c'.
      apply quiet_step_trans.
      unfold quiet_step. proj_simpl. repeat split. eexists. split; reflexivity.
    + wp_run. unfold quiet_step. proj_simpl. repeat split.
      exists []. now rewrite app_nil_r.
Qed.

(** [decryptMessage] emits [MessageReceived] exactly when it returns
    [true], and leaves the read descriptor and [sendMap] alone. *)
Lemma decryptMessage_wp (messageID : TransportID) (ciphertext : list byte)
    (c : Client) :
  wp (decryptMessage messageID ciphertext)
     (fun decrypted c' =>
        user c' = user c
        /\ spoolReadDescriptor c' = spoolReadDescriptor c
        /\ sendMap c' = sendMap c
        /\ conversationsMutex c' = conversationsMutex c
        /\ exists t, trace c' = trace c ++ t
             /\ received t = (if decrypted then 1 else 0)
             /\ length (emitted t) = (if decrypted then 1 else 0)) c.
Proof.
  unfold decryptMessage. wp_step. wp_step. wp_step. wp_step. wp_step.
  eapply wp_mono; [apply trial_decrypt_quiet|]. cbn beta.
  intros found c1 (Q1 & Q2 & Q3 & Q4 & Q5 & Q6 & Q7 & t & Q8 & Q9).
  proj_simpl.
  destruct found as [[nickname message]|].
  - wp_step. wp_step. destruct (rand_Read (tick c1)) as [convoMesgID [e|]];
      wp_run; unfold insert_message; wp_run; proj_simpl;
      (repeat split; [assumption..| congruence |]);
      rewrite Q8, <- ?app_assoc; eexists; (split; [reflexivity|]);
      unfold received; rewrite !emitted_app, Q9; split; reflexivity.
  - wp_run. proj_simpl. repeat split; try assumption.
    rewrite Q8, <- app_assoc. eexists. split; [reflexivity|].
    unfold received. rewrite !emitted_app, Q9. split; reflexivity.
Qed.

Lemma handleReply_descriptor_wp (replyEvent : MessageReplyEvent)
    (tp : SentMessageDescriptor) (c : Client) :
  wp (handleReply_descriptor replyEvent tp)
     (fun _ c' =>
        user c' = user c /\ sendMap c' = sendMap c
        /\ exists t, trace c' = trace c ++ t
           /\ ((spoolReadDescriptor c' = spoolReadDescriptor c /\ received t = 0)
               \/ exists d spoolResponse,
                    spoolReadDescriptor c = Some d
                    /\ smd_Nickname tp = user c
                    /\ SpoolResponseFromBytes (mre_Payload replyEvent)
                       = inr spoolResponse
                    /\ sr_IsOK spoolResponse = true
                    /\ sr_MessageID spoolResponse = ReadOffset d
                    /\ spoolReadDescriptor c' = Some (IncrementOffset d)
                    /\ received t = 1)) c.
Proof.
  unfold handleReply_descriptor.
  destruct (SpoolResponseFromBytes (mre_Payload replyEvent))
    as [err|spoolResponse] eqn:Eresp.
  { wp_run. proj_simpl. repeat split. eexists. split; [reflexivity|].
    left. split; reflexivity. }
  destruct (sr_IsOK spoolResponse) eqn:Eok; cbn [negb].
  2:{ wp_run. proj_simpl. repeat split. eexists. split; [reflexivity|].
      left. split; reflexivity. }
  wp_step. wp_step. cbn beta.
  destruct (decide (smd_Nickname tp <> user c)) as [Hne|Heq].
  - wp_run; proj_simpl; try discriminate;
      (repeat split; []); rewrite <- ?app_assoc; eexists;
      (split; [reflexivity|]); left; split; reflexivity.
  - assert (Hu : smd_Nickname tp = user c)
      by (destruct (decide (smd_Nickname tp = user c)); [assumption|contradiction]).
    wp_step. wp_step. wp_step. wp_step. cbn beta.
    destruct (spoolReadDescriptor c) as [d|] eqn:Ed; [|exact I].
    destruct (sr_MessageID spoolResponse <? ReadOffset d)%Z eqn:Elt.
    { wp_run. proj_simpl. repeat split. rewrite <- app_assoc. eexists.
      split; [reflexivity|]. left. split; [assumption | reflexivity]. }
    destruct (sr_MessageID spoolResponse =? ReadOffset d)%Z eqn:Eeq; [|exact I].
    apply Z.eqb_eq in Eeq.
    wp_step. wp_step. wp_step.
    eapply wp_mono; [apply decryptMessage_wp|]. cbn beta. proj_simpl.
    intros decrypted c1 (Q1 & Q2 & Q3 & Q4 & t & Q5 & Q6 & Q7).
    destruct decrypted; [|exact I].
    wp_run. repeat split; try assumption.
    rewrite Q5, <- !app_assoc. eexists. split; [reflexivity|].
    right. exists d, spoolResponse. repeat split; try assumption.
Qed.

(** C10, at the failing input: [handleReply] leaves every entry of
    [sendMap] that is stored under an array key where it is, the entry of
    the reply it has just handled included. *)
Theorem handleReply_keeps_entry (c c' : Client) (replyEvent : MessageReplyEvent) :
  handleReply replyEvent c = Done tt c' ->
  forall a, sendMap c' !! ArrayKey a = sendMap c !! ArrayKey a.
Proof.
  intros Hrun a.
  enough (Hwp : wp (handleReply replyEvent)
                  (fun _ c' => sendMap c' !! ArrayKey a = sendMap c !! ArrayKey a) c)
    by exact (wp_Done _ _ _ _ _ Hwp Hrun).
  clear Hrun c'. unfold handleReply. wp_step. wp_step.
  destruct (sendMap c !! ArrayKey (mre_MessageID replyEvent)) as [tp|];
    [|reflexivity].
  wp_step. eapply wp_mono; [apply handleReply_descriptor_wp|]. cbn beta.
  intros _ c1 (_ & Hs & _). wp_step. proj_simpl.
  rewrite lookup_delete_ne by discriminate. now rewrite Hs.
Qed.

Lemma handleReply_wp (replyEvent : MessageReplyEvent) (c : Client) :
  wp (handleReply replyEvent)
     (fun _ c' =>
        user c' = user c
        /\ (forall a, sendMap c' !! ArrayKey a = sendMap c !! ArrayKey a)
        /\ exists t, trace c' = trace c ++ t
           /\ ((spoolReadDescriptor c' = spoolReadDescriptor c /\ received t = 0)
               \/ exists d, spoolReadDescriptor c = Some d
                    /\ spoolReadDescriptor c' = Some (IncrementOffset d)
                    /\ received t = 1)) c.
Proof.
  unfold handleReply. wp_step. wp_step.
  destruct (sendMap c !! ArrayKey (mre_MessageID replyEvent)) as [tp|].
  - wp_step. eapply wp_mono; [apply handleReply_descriptor_wp|]. cbn beta.
    intros _ c1 (Hu & Hs & t & Ht & Hcase). wp_step. proj_simpl.
    split; [exact Hu|]. split.
    { intros a. rewrite lookup_delete_ne by discriminate. now rewrite Hs. }
    exists t. split; [exact Ht|].
    destruct Hcase as [Hsame|(d & resp & Hd & _ & _ & _ & _ & Hd' & Hr)];
      [left; exact Hsame | right; eauto].
  - wp_step. repeat split. exists []. rewrite app_nil_r. split; [reflexivity|].
    left. split; reflexivity.
Qed.

Lemma IncrementOffset_no_wrap (d : SpoolReadDescriptor) :
  (0 <= ReadOffset d)%Z -> (ReadOffset d + 1 < 2 ^ 32)%Z ->
  ReadOffset (IncrementOffset d) = (ReadOffset d + 1)%Z.
Proof. intros H0 H1. unfold IncrementOffset, uint32. simpl. apply Z.mod_small. lia. Qed.

Lemma handleReplies_offset (replyEvents : list MessageReplyEvent) :
  forall (c : Client) (d : SpoolReadDescriptor),
  spoolReadDescriptor c = Some d ->
  (0 <= ReadOffset d)%Z ->
  (ReadOffset d + Z.of_nat (length replyEvents) < 2 ^ 32)%Z ->
  wp (handleReplies replyEvents)
     (fun _ c' => exists d' t,
        spoolReadDescriptor c' = Some d' /\ trace c' = trace c ++ t
        /\ ReadOffset d' = (ReadOffset d + Z.of_nat (received t))%Z
        /\ received t <= length replyEvents) c.
Proof.
  induction replyEvents as [|ev evs IH]; intros c d Hd H0 Hlt.
  - exists d, []. rewrite app_nil_r. change (received []) with 0.
    repeat split; auto; simpl; lia.
  - cbn [handleReplies]. wp_step.
    eapply wp_mono; [apply handleReply_wp|]. cbn beta.
    intros _ c1 (_ & _ & t1 & Ht1 & Hcase).
    simpl length in Hlt.
    destruct Hcase as [[Hsame Hr]|(d0 & Hd0 & Hd1 & Hr)].
    + eapply wp_mono; [apply (IH c1 d); [congruence | lia | lia]|]. cbn beta.
      intros _ c2 (d' & t2 & Hd' & Ht2 & Ho & Hle).
      exists d', (t1 ++ t2). rewrite received_app, Hr.
      repeat split; [assumption | now rewrite Ht2, Ht1, app_assoc | lia | simpl; lia].
    + assert (d0 = d) by congruence. subst d0.
      pose proof (IncrementOffset_no_wrap d H0 ltac:(lia)) as Hinc.
      eapply wp_mono;
        [apply (IH c1 (IncrementOffset d)); [assumption | lia | lia]|].
      cbn beta. intros _ c2 (d' & t2 & Hd' & Ht2 & Ho & Hle).
      exists d', (t1 ++ t2). rewrite received_app, Hr.
      repeat split; [assumption | now rewrite Ht2, Ht1, app_assoc | lia | simpl; lia].
Qed.


(** C6, amended: the read offset counts modulo 2^32.  As long as it does
    not wrap, it is after any run of reply events its initial value plus the
    number of [MessageReceived] events that the run emitted.  A response to
    a read whose message id is below the offset is dropped; one whose id is
    the offset advances the offset, and then the trial decryption runs and
    its failure is a panic; one whose id is above the offset is a panic. *)
Theorem handleReply_read_offset :
  (forall replyEvents (c c' : Client) (d : SpoolReadDescriptor),
     spoolReadDescriptor c = Some d ->
     (0 <= ReadOffset d)%Z ->
     (ReadOffset d + Z.of_nat (length replyEvents) < 2 ^ 32)%Z ->
     handleReplies replyEvents c = Done tt c' ->
     exists d' t,
       spoolReadDescriptor c' = Some d' /\ trace c' = trace c ++ t
       /\ ReadOffset d' = (ReadOffset d + Z.of_nat (received t))%Z
       /\ (ReadOffset d <= ReadOffset d')%Z)
  /\ (forall (replyEvent : MessageReplyEvent) (c : Client)
        (tp : SentMessageDescriptor) (spoolResponse : SpoolResponse)
        (d : SpoolReadDescriptor),
     sendMap c !! ArrayKey (mre_MessageID replyEvent) = Some tp ->
     smd_Nickname tp = user c ->
     SpoolResponseFromBytes (mre_Payload replyEvent) = inr spoolResponse ->
     sr_IsOK spoolResponse = true ->
     spoolReadDescriptor c = Some d ->
     ((sr_MessageID spoolResponse < ReadOffset d)%Z ->
        exists c' t, handleReply replyEvent c = Done tt c'
          /\ spoolReadDescriptor c' = Some d /\ heap c' = heap c
          /\ conversations c' = conversations c
          /\ trace c' = trace c ++ t /\ emitted t = [])
     /\ (sr_MessageID spoolResponse = ReadOffset d ->
        handleReply replyEvent c
        = match decryptMessage (mre_MessageID replyEvent)
                  (sr_Message spoolResponse) (tip_state c d) with
          | Done true c1 =>
              Done tt (set_sendMap
                         (delete (PointerKey (mre_MessageID replyEvent))
                                 (sendMap c1)) c1)
          | Done false _ => Panic "failure to decrypt tip of spool"
          | Panic why => Panic why
          | Hang => Hang
          end)
     /\ ((ReadOffset d < sr_MessageID spoolResponse)%Z ->
        handleReply replyEvent c
        = Panic "received spool response for MessageID not requested yet")).
Proof.
  split.
  - intros evs c c' d Hd H0 Hlt Hrun.
    destruct (wp_Done _ _ _ _ _ (handleReplies_offset evs c d Hd H0 Hlt) Hrun)
      as (d' & t & Hd' & Ht & Ho & _).
    exists d', t. repeat split; try assumption. lia.
  - intros ev c tp resp d Htp Hu Hresp Hok Hd.
    assert (Hpre : handleReply ev c
      = bind (handleReply_descriptor ev tp)
             (fun _ => sendMap_Delete (PointerKey (mre_MessageID ev))) c).
    { unfold handleReply. unfold bind at 1. unfold get. now rewrite Htp. }
    rewrite Hpre. unfold handleReply_descriptor. rewrite Hresp, Hok. cbn [negb].
    unfold bind, get. cbn beta iota.
    destruct (decide (smd_Nickname tp <> user c)) as [Hne|_]; [contradiction|].
    rewrite Hd. unfold log, effect, modify, ret, panic, sendMap_Delete.
    cbn beta iota. split; [|split].
    + intros Hlt. apply Z.ltb_lt in Hlt. rewrite Hlt. cbn beta iota.
      eexists _, _. split; [reflexivity|]. proj_simpl.
      repeat split; [assumption | rewrite <- app_assoc; reflexivity | reflexivity].
    + intros Heq. rewrite Heq, Z.ltb_irrefl, Z.eqb_refl. cbn beta iota.
      match goal with
      | |- context [decryptMessage _ _ ?st] =>
          assert (Hst : st = tip_state c d)
            by (unfold tip_state, set_spoolReadDescriptor, set_trace; cbn;
                rewrite <- app_assoc; reflexivity);
          rewrite Hst
      end.
      destruct (decryptMessage _ _ (tip_state c d)) as [[|] c1| |]; reflexivity.
    + intros Hgt.
      destruct (Z.ltb_spec (sr_MessageID resp) (ReadOffset d)); [lia|].
      destruct (Z.eqb_spec (sr_MessageID resp) (ReadOffset d)); [lia|].
      reflexivity.
Qed.

(** ** The in-flight window *)








(** *** Runs that return *)
















(** *** doRetransmit with and without candidates *)











(** ** The conversations mutex *)

(** A delivery acknowledgement for a message that is still in its
    conversation never gets past [c.save()]: [handleReply] holds
    [conversationsMutex] when it calls it. *)
Lemma handleReply_delivery_blocks
    (c : Client) (replyEvent : MessageReplyEvent) (tp : SentMessageDescriptor)
    (spoolResponse : SpoolResponse) (convo : gmap MessageID Message)
    (msg : Message) (p : nat) (k : Contact) :
  sendMap c !! ArrayKey (mre_MessageID replyEvent) = Some tp ->
  smd_Nickname tp <> user c ->
  SpoolResponseFromBytes (mre_Payload replyEvent) = inr spoolResponse ->
  sr_IsOK spoolResponse = true ->
  conversationsMutex c = false ->
  conversations c !! smd_Nickname tp = Some convo ->
  convo !! smd_MessageID tp = Some msg ->
  contactNicknames c !! smd_Nickname tp = Some p ->
  heap c !! p = Some k ->
  (0 < UnACKed k)%Z ->
  handleReply replyEvent c = Hang.
Proof.
  intros Htp Hne Hresp Hok Hm Hconv Hmsg Hn Hk Hpos.
  unfold handleReply, bind, get. rewrite Htp.
  unfold handleReply_descriptor. rewrite Hresp, Hok. cbn [negb].
  unfold bind, get. cbn beta iota.
  destruct (decide (smd_Nickname tp <> user c)) as [_|]; [|contradiction].
  unfold Lock. rewrite Hm, Hconv, Hmsg, Hn.
  unfold deref, with_contact, bind, deref, modify. proj_simpl. rewrite Hk.
  apply Z.ltb_lt in Hpos. rewrite Hpos. proj_simpl. rewrite Hk.
  unfold update_message, modify. cbn beta iota.
  rewrite save_Hang by reflexivity. reflexivity.
Qed.

(** The same holds for the report that a message was sent: [handleSent]
    sets [Sent] and calls [c.save()] with the mutex held. *)
Lemma handleSent_blocks
    (c : Client) (sentEvent : MessageSentEvent_in) (tp : SentMessageDescriptor)
    (convo : gmap MessageID Message) (msg : Message) :
  sendMap c !! ArrayKey (mse_MessageID sentEvent) = Some tp ->
  smd_Nickname tp <> user c ->
  conversationsMutex c = false ->
  conversations c !! smd_Nickname tp = Some convo ->
  convo !! smd_MessageID tp = Some msg ->
  handleSent sentEvent c = Hang.
Proof.
  intros Htp Hne Hm Hconv Hmsg.
  unfold handleSent, bind, get. rewrite Htp.
  destruct (decide (smd_Nickname tp = user c)) as [|_]; [contradiction|].
  unfold Lock. rewrite Hm, Hconv, Hmsg.
  unfold update_message, modify. cbn beta iota.
  rewrite save_Hang by reflexivity. reflexivity.
Qed.

End Properties.

(** * Runs in the concrete world *)

Section Runs.
Import Toy.
#[local] Existing Instance Toy.world.

(** ** Framing *)

Example frame_hi :
  frame 8 hi
  = [Byte.x00; Byte.x00; Byte.x00; Byte.x02; Byte.x68; Byte.x69; Byte.x00; Byte.x00].
Proof. reflexivity. Qed.

Example unframe_hi :
  option_map sl_elems (unframe (slice_of (frame 8 hi))) = Some hi.
Proof. reflexivity. Qed.

(** A five-byte plaintext does not fit the eight-byte payload of this
    world; the send goes through all the same, with the fifth byte cut off
    and a prefix that says five. *)
Example send_oversize_submits :
  twp (SendMessage "bob" [Byte.x01; Byte.x02; Byte.x03; Byte.x04; Byte.x05])
      (fun _ c' =>
         submitted (trace c')
         = [[Byte.x09; Byte.x42; Byte.x00; Byte.x00; Byte.x00; Byte.x05;
             Byte.x01; Byte.x02; Byte.x03; Byte.x04]]
         /\ accepted (trace c') = 1) c0.
Proof. vm_compute. split; reflexivity. Qed.

(** ** Trial decryption *)

Lemma decryptMessage_unchecked_frame_witness :
  ratchet_Decrypt (ratchet bob) wrapping_frame
  = (Byte.x42, inr (slice_of [Byte.xff; Byte.xff; Byte.xff; Byte.xff]))
  /\ unframe (slice_of [Byte.xff; Byte.xff; Byte.xff; Byte.xff]) = None
  /\ decryptMessage (id16 9) wrapping_frame c0
     = Panic "slice bounds out of range".
Proof.
  split; [reflexivity|]. split; [reflexivity|].
  apply (decryptMessage_unchecked_frame c0 7 1 bob (id16 9) wrapping_frame
           Byte.x42 (slice_of [Byte.xff; Byte.xff; Byte.xff; Byte.xff]));
    reflexivity.
Defined.

(** ** Retransmission *)

Lemma doRetransmit_short_queue_witness :
  (forall c', doRetransmit 1 (with_conversation {[ id16 0 := unsent_msg ]} c0)
              <> Done None c')
  /\ doRetransmit 1 (with_conversation {[ id16 0 := unsent_msg ]} c0)
     = Panic "slice bounds out of range".
Proof.
  destruct (doRetransmit_short_queue
              (with_conversation {[ id16 0 := unsent_msg ]} c0) 1 bob
              {[ id16 0 := unsent_msg ]})
    as [Hnever Hpanic].
  - reflexivity.
  - reflexivity.
  - vm_compute. lia.
  - split; [exact Hnever|]. apply Hpanic. reflexivity.
Defined.

(** Seventeen sends to bob, none of them reported as sent: the last one
    finds the window full, calls [doRetransmit] and panics there. *)
Example seventeenth_send_panics :
  send_all "bob" (repeat hi 17) c0 = Panic "slice bounds out of range".
Proof.
  assert (Hrun : match send_all "bob" (repeat hi 17) c0 with
                 | Panic why => why = "slice bounds out of range"
                 | _ => False
                 end) by (vm_compute; reflexivity).
  destruct (send_all "bob" (repeat hi 17) c0); [contradiction | | contradiction].
  now subst.
Qed.

(** C9, counterexample: four undelivered messages with the same timestamp
    are visited in the order 2, 4, 1, 3 of their conversation ids, the
    insertion sort leaves equal timestamps where they are, and the messages
    go out in that order: 2 before 1. *)
Lemma retransmit_tie_counterexample :
  twp (doRetransmit 1)
      (fun r c' =>
         r = None
         /\ submitted (trace c')
            = [[Byte.x09; Byte.x02]; [Byte.x09; Byte.x04];
               [Byte.x09; Byte.x01]; [Byte.x09; Byte.x03]]) c_full
  /\ convo4 !! id16 2 = Some (sent_msg 5 [Byte.x02])
  /\ convo4 !! id16 1 = Some (sent_msg 5 [Byte.x01])
  /\ mid_lt (id16 1) (id16 2) = true.
Proof.
  vm_compute. split; [split; reflexivity|]. split; [reflexivity|].
  split; reflexivity.
Qed.

Lemma doRetransmit_ascending_timestamps_witness :
  exists c' queue t,
    doRetransmit 1 c_full = Done None c'
    /\ length queue = someLimit
    /\ StronglySorted
         (fun a b => (Timestamp (mwid_msg a) <= Timestamp (mwid_msg b))%Z) queue
    /\ trace c' = trace c_full ++ t
    /\ Forall2 (fun m cmd =>
           AppendToSpool (swd_ID bob_spool) (Ciphertext (mwid_msg m)) = inr cmd)
         queue (submitted t).
Proof.
  assert (Hrun : twp (doRetransmit 1) (fun r _ => r = None) c_full)
    by (vm_compute; reflexivity).
  unfold twp in Hrun. revert Hrun.
  destruct (doRetransmit 1 c_full) as [r c'| |] eqn:E; [|contradiction..].
  intros ->.
  destruct (doRetransmit_ascending_timestamps c_full c' 1 bob_full convo4
              bob_spool)
    as (queue & t & _ & Hlen & Hsorted & _ & Ht & Hcmds);
    [reflexivity | reflexivity | reflexivity | exact E |].
  exists c', queue, t. auto.
Defined.

(** ** The in-flight window *)



(** ** Sending to an unknown recipient *)

Lemma SendMessage_unknown_recipient_witness :
  exists c' convo t,
    SendMessage "ghost" hi c0 = Done (fst (rand_Read (tick c0))) c'
    /\ conversations c' !! "ghost" = Some convo
    /\ convo !! fst (rand_Read (tick c0))
       = Some {| Plaintext := hi; Ciphertext := [];
                 Timestamp := time_Now (S (tick c0)); Outbound := true;
                 Sent := false; Delivered := false |}
    /\ trace c' = trace c0 ++ t
    /\ submitted t = [] /\ emitted t = []
    /\ sendMap c' = sendMap c0 /\ heap c' = heap c0
    /\ conversations c' = <[ "ghost" := convo ]> (conversations c0)
    /\ t = [Log ERROR "contact %s not found"]
    /\ statefile c' = statefile c0.
Proof.
  destruct (SendMessage_unknown_recipient c0 "ghost" hi)
    as (c' & convo & t & H1 & H2 & H3 & H4 & H5 & H6 & H7 & H8 & _ & H10
        & _ & _ & H13 & _ & _ & _ & _ & _ & _ & H20);
    [reflexivity | reflexivity |].
  exists c', convo, t.
  split; [exact H1|]. split; [exact H2|]. split; [exact H3|].
  split; [exact H4|]. split; [exact H5|]. split; [exact H6|].
  split; [exact H7|]. split; [exact H8|]. split; [exact H10|].
  split; [exact H13 | exact H20].
Defined.

(** ** Key exchange updates *)

(** C5, the failing inputs: a result that does not parse, and a result
    whose key exchange the ratchet refuses, both end the pending state of
    carol and leave her without a spool write descriptor. *)
Lemma failed_exchange_counterexample :
  twp (processPANDAUpdate (kx_update None None (Some [])))
      (fun _ c' =>
         (IsPending <$> heap c' !! 1) = Some false
         /\ (spoolWriteDescriptor <$> heap c' !! 1) = Some None) c_pending
  /\ twp (processPANDAUpdate (kx_update None None (Some [Byte.x09])))
      (fun _ c' =>
         (IsPending <$> heap c' !! 1) = Some false
         /\ (spoolWriteDescriptor <$> heap c' !! 1) = Some None) c_pending.
Proof. split; vm_compute; split; reflexivity. Qed.

(** A send to carol after the failed exchange passes the pending check and
    dereferences her nil spool write descriptor. *)
Example send_after_failed_exchange_panics :
  (processPANDAUpdate (kx_update None None (Some [])) ;; SendMessage "carol" hi)
    c_pending
  = Panic "invalid memory address or nil pointer dereference".
Proof.
  assert (Hrun : match (processPANDAUpdate (kx_update None None (Some [])) ;;
                        SendMessage "carol" hi) c_pending with
                 | Panic why =>
                     why = "invalid memory address or nil pointer dereference"
                 | _ => False
                 end) by (vm_compute; reflexivity).
  destruct ((processPANDAUpdate _ ;; SendMessage "carol" hi) c_pending);
    [contradiction | | contradiction].
  now subst.
Qed.

Lemma processPANDAUpdate_contact_witness :
  (exists c' k',
     processPANDAUpdate (kx_update None None (Some [])) c_pending = Done tt c'
     /\ heap c' !! 1 = Some k'
     /\ IsPending k' = false /\ spoolWriteDescriptor k' = None)
  /\ (exists c' k',
     processPANDAUpdate (kx_update None None (Some [Byte.x09; Byte.x55])) c_pending
     = Done tt c'
     /\ heap c' !! 1 = Some k'
     /\ IsPending k' = false /\ pandaKeyExchange k' = None
     /\ pandaResult k' = pandaResult carol
     /\ spoolWriteDescriptor k' = Some bob_spool
     /\ ratchet k' = Byte.x55).
Proof.
  split.
  - assert (Hrun : twp (processPANDAUpdate (kx_update None None (Some [])))
                       (fun _ _ => True) c_pending)
      by (vm_compute; exact I).
    unfold twp in Hrun. revert Hrun.
    destruct (processPANDAUpdate _ c_pending) as [[] c'| |] eqn:E;
      [|contradiction..].
    intros _.
    destruct (processPANDAUpdate_contact c_pending c'
                (kx_update None None (Some [])) 1 carol)
      as (k' & Hk & Hp & Hx & Hres & Hd & Hr);
      [reflexivity | reflexivity | exact E |].
    exists c', k'. repeat split; assumption.
  - assert (Hrun : twp (processPANDAUpdate
                          (kx_update None None (Some [Byte.x09; Byte.x55])))
                       (fun _ _ => True) c_pending)
      by (vm_compute; exact I).
    unfold twp in Hrun. revert Hrun.
    destruct (processPANDAUpdate _ c_pending) as [[] c'| |] eqn:E;
      [|contradiction..].
    intros _.
    destruct (processPANDAUpdate_contact c_pending c'
                (kx_update None None (Some [Byte.x09; Byte.x55])) 1 carol)
      as (k' & Hk & Hp & Hx & Hres & Hd & Hr);
      [reflexivity | reflexivity | exact E |].
    exists c', k'. repeat split; assumption.
Defined.

(** C7, counterexample: the update repeats the exchange bytes that carol
    holds; the event goes out and nothing is saved. *)
Lemma state_echo_counterexample :
  twp (processPANDAUpdate (kx_update None (Some [Byte.x01]) None))
      (fun _ c' =>
         emitted (trace c')
         = [KeyExchangeCompletedEvent "carol" (Some echo_error)]
         /\ saves (trace c') = 0) c_pending.
Proof. vm_compute. split; reflexivity. Qed.

Lemma processPANDAUpdate_persists_witness :
  exists c' t t0,
    processPANDAUpdate (kx_update None (Some [Byte.x02]) None) c_pending
    = Done tt c'
    /\ trace c' = trace c_pending ++ t /\ saves t = 1
    /\ statefile c' = Some (snapshot c')
    /\ t = t0 ++ [Log DEBUG "Saving statefile."; Saved]
    /\ emitted t0 = [].
Proof.
  assert (Hrun : twp (processPANDAUpdate (kx_update None (Some [Byte.x02]) None))
                     (fun _ _ => True) c_pending)
    by (vm_compute; exact I).
  unfold twp in Hrun. revert Hrun.
  destruct (processPANDAUpdate _ c_pending) as [[] c'| |] eqn:E;
    [|contradiction..].
  intros _.
  destruct (processPANDAUpdate_persists c_pending c'
              (kx_update None (Some [Byte.x02]) None) E)
    as (t & Ht & Hs & Hrest).
  assert (Hshape : statefile c' = Some (snapshot c')
                   /\ exists t0 t1,
                        t = t0 ++ [Log DEBUG "Saving statefile."; Saved] ++ t1
                        /\ saves t0 = 0 /\ t1 = [] /\ emitted t0 = [])
    by exact Hrest.
  destruct Hshape as (Hsf & t0 & t1 & Hcut & _ & Ht1 & Hem).
  exists c', t, t0.
  split; [reflexivity|]. split; [exact Ht|]. split; [exact Hs|].
  split; [exact Hsf|]. split; [|exact Hem].
  rewrite Hcut, Ht1. reflexivity.
Defined.

(** ** Replies *)

(** C6, counterexample: the read offset is 2^32 - 1 and the response to
    the read of that slot arrives; the offset is 0 afterwards. *)
Lemma read_offset_counterexample :
  twp (handleReply (read_reply 4294967295))
      (fun _ c' =>
         (ReadOffset <$> spoolReadDescriptor c') = Some 0%Z
         /\ received (trace c') = 1) (c_reading 4294967295)
  /\ (ReadOffset <$> spoolReadDescriptor (c_reading 4294967295))
     = Some 4294967295%Z.
Proof. split; [vm_compute; split; reflexivity | reflexivity]. Qed.

(** S3: two replies for the read of slot 5 leave the offset at 6, and one
    message is received. *)
Example duplicate_tip_reply :
  twp (handleReplies [read_reply 5; read_reply 5])
      (fun _ c' =>
         (ReadOffset <$> spoolReadDescriptor c') = Some 6%Z
         /\ emitted (trace c') = [MessageReceivedEvent "bob" hi 1]) (c_reading 5).
Proof. vm_compute. split; reflexivity. Qed.

Lemma handleReply_read_offset_witness :
  exists c' d' t,
    handleReplies [read_reply 5; read_reply 5] (c_reading 5) = Done tt c'
    /\ spoolReadDescriptor c' = Some d'
    /\ trace c' = trace (c_reading 5) ++ t
    /\ ReadOffset d' = (5 + Z.of_nat (received t))%Z
    /\ (5 <= ReadOffset d')%Z.
Proof.
  assert (Hrun : twp (handleReplies [read_reply 5; read_reply 5])
                     (fun _ _ => True) (c_reading 5))
    by (vm_compute; exact I).
  unfold twp in Hrun. revert Hrun.
  destruct (handleReplies _ (c_reading 5)) as [[] c'| |] eqn:E;
    [|contradiction..].
  intros _.
  destruct (proj1 handleReply_read_offset [read_reply 5; read_reply 5]
              (c_reading 5) c' (inbox 5))
    as (d' & t & H1 & H2 & H3 & H4);
    [reflexivity | vm_compute; discriminate | reflexivity | exact E |].
  exists c', d', t. repeat split; assumption.
Defined.

(** The same acknowledgement handled twice: the tracker entry is still
    there for the second reply, and [MessageDelivered] goes out twice. *)
Example duplicate_reply_delivered_twice :
  twp (handleReplies [ack_reply; ack_reply])
      (fun _ c' =>
         delivered (trace c') = 2
         /\ sendMap c' !! ArrayKey (id16 9)
            = Some {| smd_Nickname := "bob"; smd_MessageID := id16 3 |}) c_acking.
Proof. vm_compute. split; reflexivity. Qed.

(** With the message still in the conversation the first acknowledgement
    already blocks the worker. *)
Example first_ack_blocks :
  handleReply ack_reply
    (with_conversation {[ id16 3 := sent_msg 1 [Byte.x01] ]} c_acking) = Hang.
Proof.
  assert (Hrun : match handleReply ack_reply
                         (with_conversation {[ id16 3 := sent_msg 1 [Byte.x01] ]}
                            c_acking) with
                 | Hang => True
                 | _ => False
                 end) by (vm_compute; exact I).
  destruct (handleReply ack_reply _); [contradiction | contradiction | reflexivity].
Qed.

Lemma handleReply_keeps_entry_witness :
  exists c',
    handleReply ack_reply c_acking = Done tt c'
    /\ sendMap c' !! ArrayKey (id16 9) = sendMap c_acking !! ArrayKey (id16 9).
Proof.
  assert (Hrun : twp (handleReply ack_reply) (fun _ _ => True) c_acking)
    by (vm_compute; exact I).
  unfold twp in Hrun. revert Hrun.
  destruct (handleReply ack_reply c_acking) as [[] c'| |] eqn:E;
    [|contradiction..].
  intros _. exists c'. split; [reflexivity|].
  apply (handleReply_keeps_entry c_acking c' ack_reply E).
Defined.

End Runs.
